(** * Sentence embedding store and similarity search index

    A shallow embedding of [database.py] (class [EmbeddingDatabase]) and
    [search_index.py] (class [SimilaritySearchIndex]).

    - The SQLite file behind [EmbeddingDatabase] is a [Store]: the two tables
      as lists of rows in insertion order, plus the two AUTOINCREMENT
      counters of [sqlite_sequence].
    - The attributes of a [SimilaritySearchIndex] object, the two artifact
      files it owns and the records it sends to [logging] form a [World].
    - Methods are computations in a state monad with exceptions: a Python
      [raise] keeps the side effects performed so far, and [try/except]
      resumes from the state reached at the raise.
    - The FAISS library is an interface ([FaissLib]); the code is verified
      against every implementation of it.
    - float32 values are idealised as rationals; NaN and infinities are
      outside the model. *)

From Stdlib Require Import ZArith QArith.
From stdpp Require Import base list sorting gmap strings.

Local Open Scope Z_scope.

(** ** Python calls: state and exceptions *)

Inductive exn : Type :=
  | ValueError
  | AssertionError
  | RuntimeError.

Inductive result (A : Type) : Type :=
  | Returned (a : A)
  | Raised (e : exn).
Arguments Returned {A} a.
Arguments Raised {A} e.

Definition M (S A : Type) : Type := S → result A * S.

Definition ret {S A} (a : A) : M S A := λ s, (Returned a, s).

Definition bind {S A B} (m : M S A) (k : A → M S B) : M S B :=
  λ s, match m s with
       | (Returned a, s') => k a s'
       | (Raised e, s') => (Raised e, s')
       end.

Definition raise {S A} (e : exn) : M S A := λ s, (Raised e, s).

(** [try: m except: h] *)
Definition try_except {S A} (m : M S A) (h : exn → M S A) : M S A :=
  λ s, match m s with
       | (Returned a, s') => (Returned a, s')
       | (Raised e, s') => h e s'
       end.

Definition get {S} : M S S := λ s, (Returned s, s).
Definition modify {S} (f : S → S) : M S unit := λ s, (Returned tt, f s).

(** The monad notations [x ← m; k] and [m;; k] are those of stdpp. *)
Global Instance M_ret {S} : MRet (M S) := λ A, ret.
Global Instance M_bind {S} : MBind (M S) := λ A B k m, bind m k.

(** ** database.py *)

(** A float32 array of shape [(d,)]. *)
Definition vector : Type := list Q.

(** [embedding.tobytes()] and [np.frombuffer(blob, dtype=np.float32)]: the
    BLOB column holds the items of a float32 array, four bytes each;
    reading it back yields the same items. *)
Definition tobytes (embedding : vector) : list Q := embedding.
Definition frombuffer (blob : list Q) : vector := blob.

Record DocumentRow : Type := {
  doc_id : Z;
  doc_filename : string;
  doc_file_path : string
}.

Record SentenceRow : Type := {
  sent_id : Z;
  sent_document_id : Z;
  sent_text : string;
  sent_index : Z;
  sent_embedding : option (list Q)   (* BLOB, nullable *)
}.

Record Store : Type := {
  documents : list DocumentRow;
  sentences : list SentenceRow;
  documents_seq : Z;    (* sqlite_sequence row of table documents *)
  sentences_seq : Z     (* sqlite_sequence row of table sentences *)
}.

(** [init_database] on a fresh file. *)
Definition init_database : Store :=
  {| documents := []; sentences := []; documents_seq := 0; sentences_seq := 0 |}.

Definition insert_document (filename file_path : string) (s : Store) : Z * Store :=
  let rowid := documents_seq s + 1 in
  (rowid,
   {| documents := documents s ++
        [{| doc_id := rowid; doc_filename := filename; doc_file_path := file_path |}];
      sentences := sentences s;
      documents_seq := rowid;
      sentences_seq := sentences_seq s |}).

(** [add_document]: the INSERT violates [UNIQUE(file_path)] exactly when a
    row with that path exists; the handler of [sqlite3.IntegrityError] then
    selects the id of that row. *)
Definition add_document (filename file_path : string) : M Store Z :=
  λ s, match list_find (λ d, doc_file_path d = file_path) (documents s) with
       | Some (_, d) => (Returned (doc_id d), s)
       | None => let '(rowid, s') := insert_document filename file_path s in
                 (Returned rowid, s')
       end.

(** [add_sentence_embedding]: one INSERT, no check on the vector. The
    [document_id] foreign key is not enforced by a default connection. *)
Definition add_sentence_embedding (document_id : Z) (sentence_text : string)
    (sentence_index : Z) (embedding : vector) : M Store unit :=
  λ s, let embedding_blob := tobytes embedding in
       let rowid := sentences_seq s + 1 in
       (Returned tt,
        {| documents := documents s;
           sentences := sentences s ++
             [{| sent_id := rowid; sent_document_id := document_id;
                 sent_text := sentence_text; sent_index := sentence_index;
                 sent_embedding := Some embedding_blob |}];
           documents_seq := documents_seq s;
           sentences_seq := rowid |}).

(** [ORDER BY s.id] *)
Definition by_id : relation SentenceRow := λ a b, sent_id a ≤ sent_id b.

Global Instance by_id_dec : RelDecision by_id.
Proof. intros a b. unfold by_id. apply _. Defined.

Definition has_embedding (r : SentenceRow) : Prop := is_Some (sent_embedding r).

Global Instance has_embedding_dec r : Decision (has_embedding r).
Proof. unfold has_embedding. apply _. Defined.

Definition embedding_of_row (r : SentenceRow) : option (Z * vector) :=
  blob ← sent_embedding r; Some (sent_id r, frombuffer blob).

(** [get_all_embeddings]: the second definition in the class body, which is
    the one bound to the name:
    [SELECT s.id, s.embedding FROM sentences s
     WHERE s.embedding IS NOT NULL ORDER BY s.id]. *)
Definition get_all_embeddings : M Store (list (Z * vector)) :=
  λ s, (Returned (omap embedding_of_row
                    (merge_sort by_id (filter has_embedding (sentences s)))), s).

Record SentenceInfo : Type := {
  info_id : Z;
  info_text : string;
  info_index : Z;
  info_filename : string;
  info_file_path : string
}.

(** [get_sentence_by_id]: first row of
    [sentences s JOIN documents d ON s.document_id = d.id WHERE s.id = ?]. *)
Definition get_sentence_by_id (sentence_id : Z) (s : Store) : option SentenceInfo :=
  head (r ← filter (λ r, sent_id r = sentence_id) (sentences s);
        d ← filter (λ d, doc_id d = sent_document_id r) (documents s);
        [{| info_id := sent_id r; info_text := sent_text r;
            info_index := sent_index r; info_filename := doc_filename d;
            info_file_path := doc_file_path d |}]).

(** [clear_database]: both DELETEs keep the AUTOINCREMENT counters. *)
Definition clear_database : M Store unit :=
  λ s, (Returned tt,
        {| documents := []; sentences := [];
           documents_seq := documents_seq s; sentences_seq := sentences_seq s |}).

Record Stats : Type := {
  stat_documents : nat;
  stat_sentences : nat;
  stat_embeddings : nat
}.

Definition get_stats (s : Store) : Stats :=
  {| stat_documents := length (documents s);
     stat_sentences := length (sentences s);
     stat_embeddings := length (filter has_embedding (sentences s)) |}.

(** ** The FAISS interface used by search_index.py *)

Inductive IndexClass : Type :=
  | IndexFlatIP
  | IndexIVFFlat (nlist : Z).

(** What the code observes of a FAISS index object: its class, its width
    [d] and the rows added so far ([ntotal] is their number). *)
Record FaissIndex : Type := {
  ix_class : IndexClass;
  ix_d : nat;
  ix_rows : list vector
}.

Definition ntotal (ix : FaissIndex) : nat := length (ix_rows ix).

(** One column of the pair [(scores[0], indices[0])]. *)
Definition hit : Type := (Q * Z)%type.

(** The two library entry points whose outcome the library decides.
    [faiss_train ix x] is [ix.train(x)] of an [IndexIVFFlat]; [faiss_knn ix x k]
    is the native k-nearest search for a query of the width of [ix] and a
    positive [k]. Both may raise, which is why the code calls them inside
    [try]. *)
Class FaissLib : Type := {
  faiss_train : FaissIndex → list vector → result unit;
  faiss_knn : FaissIndex → vector → Z → result (list hit)
}.

Definition new_IndexFlatIP (d : nat) : FaissIndex :=
  {| ix_class := IndexFlatIP; ix_d := d; ix_rows := [] |}.

Definition new_IndexIVFFlat (d : nat) (nlist : Z) : FaissIndex :=
  {| ix_class := IndexIVFFlat nlist; ix_d := d; ix_rows := [] |}.

(** [index.add(x)] *)
Definition index_add (ix : FaissIndex) (x : list vector) : FaissIndex :=
  {| ix_class := ix_class ix; ix_d := ix_d ix; ix_rows := ix_rows ix ++ x |}.

(** [index.search(x, k)] through the Python wrapper, which asserts
    [d == self.d] and [k > 0] before it enters the library. The query has
    been reshaped to one row. *)
Definition index_search `{FaissLib} (ix : FaissIndex) (x : vector) (k : Z)
    : result (list hit) :=
  if decide (length x = ix_d ix) then
    if decide (0 < k) then faiss_knn ix x k else Raised AssertionError
  else Raised AssertionError.

(** The sentinel label of an empty result slot. *)
Definition no_result : Z := -1.

(** ** search_index.py *)

Inductive file (A : Type) : Type :=
  | absent
  | unreadable
  | holds (content : A).
Arguments absent {A}.
Arguments unreadable {A}.
Arguments holds {A} content.

Definition exists_ {A} (f : file A) : bool :=
  match f with absent => false | _ => true end.

Inductive LogRecord : Type :=
  | info_build_started
  | warning_no_embeddings
  | info_build_shape (n : nat) (d : nat)
  | info_build_done (n : nat)
  | error_build_failed (e : exn)
  | info_index_saved
  | error_save_failed (e : exn)
  | warning_index_files_missing
  | info_loading_index
  | info_loading_mapping
  | info_load_done (n : nat)
  | error_load_failed (e : exn)
  | error_load_index_path
  | error_load_mapping_path
  | error_index_not_loaded
  | error_search_failed (e : exn)
  | info_rebuilding.

(** The pickled dict [{'id_mapping': ..., 'dimension': ...}]. *)
Definition mapping_blob : Type := (gmap Z Z * option nat)%type.

Record World : Type := {
  db : Store;                         (* the file behind self.db *)
  index : option FaissIndex;          (* self.index *)
  id_mapping : gmap Z Z;              (* self.id_mapping *)
  dimension : option nat;             (* self.dimension *)
  index_file : file FaissIndex;       (* the file at self.index_path *)
  mapping_file : file mapping_blob;   (* the file at self.mapping_path *)
  log : list LogRecord                (* records sent to logging, oldest first *)
}.

(** [SimilaritySearchIndex(db_path, index_path)] over an existing store and
    existing files. *)
Definition new_engine (s : Store) (fi : file FaissIndex) (fm : file mapping_blob) : World :=
  {| db := s; index := None; id_mapping := ∅; dimension := None;
     index_file := fi; mapping_file := fm; log := [] |}.

Definition set_db (s : Store) (w : World) : World :=
  {| db := s; index := index w; id_mapping := id_mapping w; dimension := dimension w;
     index_file := index_file w; mapping_file := mapping_file w; log := log w |}.
Definition set_index (ix : option FaissIndex) (w : World) : World :=
  {| db := db w; index := ix; id_mapping := id_mapping w; dimension := dimension w;
     index_file := index_file w; mapping_file := mapping_file w; log := log w |}.
Definition set_id_mapping (m : gmap Z Z) (w : World) : World :=
  {| db := db w; index := index w; id_mapping := m; dimension := dimension w;
     index_file := index_file w; mapping_file := mapping_file w; log := log w |}.
Definition set_dimension (d : option nat) (w : World) : World :=
  {| db := db w; index := index w; id_mapping := id_mapping w; dimension := d;
     index_file := index_file w; mapping_file := mapping_file w; log := log w |}.
Definition set_index_file (f : file FaissIndex) (w : World) : World :=
  {| db := db w; index := index w; id_mapping := id_mapping w; dimension := dimension w;
     index_file := f; mapping_file := mapping_file w; log := log w |}.
Definition set_mapping_file (f : file mapping_blob) (w : World) : World :=
  {| db := db w; index := index w; id_mapping := id_mapping w; dimension := dimension w;
     index_file := index_file w; mapping_file := f; log := log w |}.

Definition logging (r : LogRecord) : M World unit :=
  modify (λ w,
    {| db := db w; index := index w; id_mapping := id_mapping w; dimension := dimension w;
       index_file := index_file w; mapping_file := mapping_file w; log := log w ++ [r] |}).

(** A method of [self.db] run from the engine. *)
Definition on_db {A} (m : M Store A) : M World A :=
  λ w, let '(r, s') := m (db w) in (r, set_db s' w).

Definition of_result {S A} (r : result A) : M S A := λ s, (r, s).

(** [np.vstack(embeddings).astype('float32')]: a matrix when there is at
    least one row and all rows have one length, [ValueError] otherwise. *)
Definition vstack (rows : list vector) : result (list vector) :=
  match rows with
  | [] => Raised ValueError
  | r :: _ =>
      if decide (Forall (λ r', length r' = length r) rows)
      then Returned rows else Raised ValueError
  end.

(** [embeddings_matrix.shape[1]] *)
Definition shape1 (matrix : list vector) : nat :=
  match matrix with [] => 0%nat | r :: _ => length r end.

(** [min(100, len(embeddings) // 10)] *)
Definition ivf_nlist (n_embeddings : nat) : Z :=
  100 `min` (Z.of_nat n_embeddings `div` 10).

(** [{i: sentence_id for i, sentence_id in enumerate(sentence_ids)}] *)
Definition enumerate_mapping (sentence_ids : list Z) : gmap Z Z :=
  list_to_map (imap (λ i sentence_id, (Z.of_nat i, sentence_id)) sentence_ids).

(** [save_index]: writing is assumed to succeed when there is an index to
    write; [faiss.write_index(None, ...)] raises. *)
Definition save_index : M World unit :=
  try_except
    (w ← get;
     match index w with
     | Some ix => modify (set_index_file (holds ix))
     | None => raise ValueError
     end;;
     modify (set_mapping_file (holds (id_mapping w, dimension w)));;
     logging info_index_saved)
    (λ e, logging (error_save_failed e)).

Definition build_index `{FaissLib} (index_type : string) : M World bool :=
  try_except
    (logging info_build_started;;
     embeddings_data ← on_db get_all_embeddings;
     match embeddings_data with
     | [] => logging warning_no_embeddings;; mret false
     | _ =>
       let sentence_ids := embeddings_data.*1 in
       let embeddings := embeddings_data.*2 in
       embeddings_matrix ← of_result (vstack embeddings);
       let d := shape1 embeddings_matrix in
       modify (set_dimension (Some d));;
       logging (info_build_shape (length embeddings) d);;
       (if decide (index_type = "flat") then
          modify (set_index (Some (new_IndexFlatIP d)))
        else if decide (index_type = "ivf") then
          let nlist := ivf_nlist (length embeddings) in
          let ix := new_IndexIVFFlat d nlist in
          modify (set_index (Some ix));;
          of_result (faiss_train ix embeddings_matrix)
        else raise ValueError);;
       w ← get;
       match index w with
       | Some ix => modify (set_index (Some (index_add ix embeddings_matrix)))
       | None => raise RuntimeError
       end;;
       modify (set_id_mapping (enumerate_mapping sentence_ids));;
       save_index;;
       w ← get;
       logging (info_build_done (from_option ntotal 0%nat (index w)));;
       mret true
     end)
    (λ e, logging (error_build_failed e);; mret false).

Definition load_index : M World bool :=
  try_except
    (w ← get;
     if negb (exists_ (index_file w)) || negb (exists_ (mapping_file w)) then
       logging warning_index_files_missing;; mret false
     else
       logging info_loading_index;;
       ix ← match index_file w with
            | holds ix => mret ix
            | _ => raise RuntimeError
            end;
       modify (set_index (Some ix));;
       logging info_loading_mapping;;
       data ← match mapping_file w with
              | holds data => mret data
              | _ => raise RuntimeError
              end;
       modify (set_id_mapping data.1);;
       modify (set_dimension data.2);;
       logging (info_load_done (ntotal ix));;
       mret true)
    (λ e,
       logging (error_load_failed e);;
       logging error_load_index_path;;
       logging error_load_mapping_path;;
       modify (set_index None);;
       modify (set_id_mapping ∅);;
       modify (set_dimension None);;
       mret false).

(** An entry of the list returned by [search]: the dict of
    [get_sentence_by_id] with the two keys added by the loop. *)
Record SearchResult : Type := {
  res_info : SentenceInfo;
  similarity_score : Q;
  rank : Z
}.

Definition Qlt_bool (x y : Q) : bool := negb (Qle_bool y x).

(** One iteration of the loop
    [for i, (score, idx) in enumerate(zip(scores[0], indices[0]))]. *)
Definition search_step (s : Store) (mapping : gmap Z Z) (threshold : Q)
    (results : list SearchResult) (i : nat) (h : hit) : list SearchResult :=
  let '(score, idx) := h in
  if decide (idx = no_result) then results
  else if Qlt_bool score threshold then results
  else match mapping !! idx with
       | None => results
       | Some sentence_id =>
           match get_sentence_by_id sentence_id s with
           | Some sentence_info =>
               results ++ [{| res_info := sentence_info;
                              similarity_score := score;
                              rank := Z.of_nat i + 1 |}]
           | None => results
           end
       end.

Fixpoint search_loop (s : Store) (mapping : gmap Z Z) (threshold : Q)
    (results : list SearchResult) (i : nat) (hits : list hit) : list SearchResult :=
  match hits with
  | [] => results
  | h :: hits' =>
      search_loop s mapping threshold
        (search_step s mapping threshold results i h) (S i) hits'
  end.

Definition search `{FaissLib} (query_embedding : vector) (k : Z) (threshold : Q)
    : M World (list SearchResult) :=
  w ← get;
  loaded ← match index w with
           | None => load_index
           | Some _ => mret true
           end;
  if negb loaded then
    logging error_index_not_loaded;; mret []
  else
    try_except
      (w ← get;
       match index w with
       | Some ix =>
           hits ← of_result (index_search ix query_embedding k);
           mret (search_loop (db w) (id_mapping w) threshold [] 0 hits)
       | None => raise RuntimeError
       end)
      (λ e, logging (error_search_failed e);; mret []).

Definition rebuild_index `{FaissLib} (index_type : string) : M World bool :=
  logging info_rebuilding;;
  modify (set_index None);;
  modify (set_id_mapping ∅);;
  modify (λ w, if exists_ (index_file w) then set_index_file absent w else w);;
  modify (λ w, if exists_ (mapping_file w) then set_mapping_file absent w else w);;
  build_index index_type.

(** ** The processing of raw hits, as the specification words it *)

Definition enumerate {A} (l : list A) : list (nat * A) := imap (λ i x, (i, x)) l.

Global Instance Qle_dec : RelDecision Qle.
Proof. intros x y. unfold Qle. apply _. Defined.

(** "discards ordinals the index reports as invalid" *)
Definition valid_hit (ih : nat * hit) : Prop := ih.2.2 ≠ no_result.

(** "then filters by score >= threshold" *)
Definition score_at_least (threshold : Q) (ih : nat * hit) : Prop :=
  (threshold <= ih.2.1)%Q.

Global Instance valid_hit_dec ih : Decision (valid_hit ih).
Proof. unfold valid_hit. apply _. Defined.

Global Instance score_at_least_dec threshold ih : Decision (score_at_least threshold ih).
Proof. unfold score_at_least. apply _. Defined.

(** "look up id_mapping[ordinal] then hydrate via sentence_by_id"; the rank
    is the one the code assigns, the position in the raw list plus one. *)
Definition hydrate (s : Store) (mapping : gmap Z Z) (ih : nat * hit)
    : option SearchResult :=
  sentence_id ← mapping !! ih.2.2;
  sentence_info ← get_sentence_by_id sentence_id s;
  Some {| res_info := sentence_info; similarity_score := ih.2.1;
          rank := Z.of_nat ih.1 + 1 |}.


(** The fate of one enumerated raw hit: the three tests of the loop body in
    one function. *)
Definition hit_result (s : Store) (mapping : gmap Z Z) (threshold : Q)
    (ih : nat * hit) : option SearchResult :=
  if decide (valid_hit ih) then
    if decide (score_at_least threshold ih) then hydrate s mapping ih else None
  else None.

(** Appending records to the log of a world. *)
Definition add_log (records : list LogRecord) (w : World) : World :=
  {| db := db w; index := index w; id_mapping := id_mapping w; dimension := dimension w;
     index_file := index_file w; mapping_file := mapping_file w;
     log := log w ++ records |}.

(** The world after a successful [load_index]. *)
Definition loaded_world (ix : FaissIndex) (data : mapping_blob) (w : World) : World :=
  add_log [info_load_done (ntotal ix)]
    (set_dimension data.2
       (set_id_mapping data.1
          (add_log [info_loading_mapping]
             (set_index (Some ix) (add_log [info_loading_index] w))))).

(** The world after the tail of a successful [build_index]: the matrix
    added to the fresh index, the mapping set, both files written. *)
Definition built_world (ix : FaissIndex) (matrix : list vector)
    (sentence_ids : list Z) (w : World) : World :=
  let ix' := index_add ix matrix in
  let w1 := set_id_mapping (enumerate_mapping sentence_ids) (set_index (Some ix') w) in
  let w2 := set_mapping_file (holds (id_mapping w1, dimension w1))
              (set_index_file (holds ix') w1) in
  add_log [info_build_done (ntotal ix')] (add_log [info_index_saved] w2).

(** The world [rebuild_index] hands to [build_index]. *)
Definition cleared_world (w : World) : World :=
  set_mapping_file absent
    (set_index_file absent
       (set_id_mapping ∅ (set_index None (add_log [info_rebuilding] w)))).

(** Both artifact files are present and readable. *)
Definition artifacts_loadable (w : World) : bool :=
  match index_file w, mapping_file w with
  | holds _, holds _ => true
  | _, _ => false
  end.

(** The raw hits of a query against the index a world holds: none when the
    world has no index or the library call raises. *)
Definition raw_hits `{FaissLib} (x : vector) (k : Z) (w : World) : list hit :=
  match index w with
  | Some ix => match index_search ix x k with
               | Returned hits => hits
               | Raised _ => []
               end
  | None => []
  end.

(** The list a call of [search] hands to its caller. *)
Definition search_results `{FaissLib} (x : vector) (k : Z) (threshold : Q)
    (w : World) : list SearchResult :=
  match (search x k threshold w).1 with
  | Returned results => results
  | Raised _ => []
  end.

(** Descending score order. *)
Definition score_ge : relation Q := λ a b, (b <= a)%Q.

Global Instance score_ge_dec : RelDecision score_ge.
Proof. intros a b. unfold score_ge. apply _. Defined.

Definition descending (scores : list Q) : Prop := StronglySorted score_ge scores.

Global Instance descending_dec scores : Decision (descending scores).
Proof. unfold descending. apply _. Defined.

(** A raw hit that passes the three tests of the loop body, wherever it
    stands in the raw list. *)
Definition hit_kept (s : Store) (mapping : gmap Z Z) (threshold : Q) (h : hit) : Prop :=
  is_Some (hit_result s mapping threshold (0%nat, h)).

(** A store has an established dimension [D] when it holds at least one
    embedding and every embedding it holds has [D] items. *)
Definition established_dimension (s : Store) (D : nat) : Prop :=
  (∃ r, r ∈ sentences s ∧ has_embedding r) ∧
  ∀ r blob, r ∈ sentences s → sent_embedding r = Some blob → length blob = D.

(** The constraints the schema declares: both primary keys, the UNIQUE
    path, and AUTOINCREMENT counters that bound the ids handed out. *)
Record store_wf (s : Store) : Prop := {
  wf_doc_ids : NoDup (doc_id <$> documents s);
  wf_doc_paths : NoDup (doc_file_path <$> documents s);
  wf_sent_ids : NoDup (sent_id <$> sentences s);
  wf_doc_seq : Forall (λ d, doc_id d ≤ documents_seq s) (documents s);
  wf_sent_seq : Forall (λ r, sent_id r ≤ sentences_seq s) (sentences s)
}.

(** ** Two implementations of the FAISS interface, for examples *)

Definition dot (x y : vector) : Q := foldr Qplus 0%Q (zip_with Qmult x y).

(** Score of an empty result slot of an inner-product index: [-FLT_MAX]. *)
Definition empty_slot : hit :=
  ((-340282346638528859811704183484516925440)%Z # 1, no_result).

Definition better : relation hit := λ a b, score_ge a.1 b.1.

Global Instance better_dec : RelDecision better.
Proof. intros a b. unfold better. apply _. Defined.

(** Full scan by inner product, best first, padded to [k] columns. *)
Definition exact_knn (ix : FaissIndex) (x : vector) (k : Z) : result (list hit) :=
  let scored := imap (λ i row, (dot x row, Z.of_nat i)) (ix_rows ix) in
  let best := take (Z.to_nat k) (merge_sort better scored) in
  Returned (best ++ replicate (Z.to_nat k - length best) empty_slot).

Definition exact_faiss : FaissLib :=
  {| faiss_train := λ _ _, Returned tt; faiss_knn := exact_knn |}.

(** A library whose training step raises. *)
Definition untrainable_faiss : FaissLib :=
  {| faiss_train := λ _ _, Raised RuntimeError; faiss_knn := exact_knn |}.

(** ** Example states *)

Definition run {S A} (m : M S A) (s : S) : S := (m s).2.

(** One document with three sentences of width 2. *)
Definition store3 : Store :=
  run (doc ← add_document "a.txt" "/docs/a.txt";
       add_sentence_embedding doc "alpha" 0 [1%Q; 0%Q];;
       add_sentence_embedding doc "beta" 1 [(1#2)%Q; (1#2)%Q];;
       add_sentence_embedding doc "gamma" 2 [(1#4)%Q; 1%Q])
      init_database.

(** [DELETE FROM sentences WHERE id = ?], run by hand on the file. *)
Definition delete_sentence (sentence_id : Z) (s : Store) : Store :=
  {| documents := documents s;
     sentences := filter (λ r, sent_id r ≠ sentence_id) (sentences s);
     documents_seq := documents_seq s; sentences_seq := sentences_seq s |}.

(** An engine that has built a flat index over [store3]. *)
Definition world3 : World :=
  run (build_index (H := exact_faiss) "flat") (new_engine store3 absent absent).

(** The same engine after sentence 2 was deleted from the store. *)
Definition world3_drift : World := set_db (delete_sentence 2 (db world3)) world3.

Definition query10 : vector := [1%Q; 0%Q].

(** A store with five embeddings of width 1. *)
Definition store5 : Store :=
  run (doc ← add_document "b.txt" "/docs/b.txt";
       add_sentence_embedding doc "s0" 0 [1%Q];;
       add_sentence_embedding doc "s1" 1 [2%Q];;
       add_sentence_embedding doc "s2" 2 [3%Q];;
       add_sentence_embedding doc "s3" 3 [4%Q];;
       add_sentence_embedding doc "s4" 4 [5%Q])
      init_database.

(** Ten embeddings of width 1, and an engine with a flat index over them. *)
Fixpoint add_all (document_id position : Z) (vs : list vector) : M Store unit :=
  match vs with
  | [] => mret tt
  | v :: vs' =>
      add_sentence_embedding document_id "s" position v;;
      add_all document_id (position + 1) vs'
  end.

Definition store10 : Store :=
  run (doc ← add_document "c.txt" "/docs/c.txt";
       add_all doc 0 ((λ n, [inject_Z n]) <$> seqZ 1 10))
      init_database.

Definition world10 : World :=
  run (build_index (H := exact_faiss) "flat") (new_engine store10 absent absent).

(** [world3] after [clear_database]: the index and both files are stale. *)
Definition world3_cleared : World := set_db (run clear_database (db world3)) world3.


(** ** database.py: the remaining queries *)

(** [ORDER BY sentence_index] *)
Definition by_sentence_index : relation SentenceRow :=
  λ a b, sent_index a ≤ sent_index b.

Global Instance by_sentence_index_dec : RelDecision by_sentence_index.
Proof. intros a b. unfold by_sentence_index. apply _. Defined.

(** A dict [{'id': ..., 'text': ..., 'index': ...}] of
    [get_document_sentences]. *)
Record DocumentSentence : Type := {
  ds_id : Z;
  ds_text : string;
  ds_index : Z
}.

(** [get_document_sentences]:
    [SELECT id, sentence_text, sentence_index FROM sentences
     WHERE document_id = ? ORDER BY sentence_index]. *)
Definition get_document_sentences (document_id : Z) (s : Store)
    : list DocumentSentence :=
  (λ r, {| ds_id := sent_id r; ds_text := sent_text r; ds_index := sent_index r |})
    <$> merge_sort by_sentence_index
          (filter (λ r, sent_document_id r = document_id) (sentences s)).

(** [get_sentence_by_index]: the row at [OFFSET index] of the embedded
    sentences joined with their documents, ordered by sentence id. SQLite
    reads a negative OFFSET as zero. The tuple is
    [(id, sentence_index, sentence_text, document_id, filename)]. *)
Definition get_sentence_by_index (index : Z) (s : Store)
    : option (Z * Z * string * Z * string) :=
  head (drop (Z.to_nat index)
          (r ← merge_sort by_id (filter has_embedding (sentences s));
           d ← filter (λ d, doc_id d = sent_document_id r) (documents s);
           [(sent_id r, sent_index r, sent_text r, sent_document_id r,
             doc_filename d)])).

(** The dict [get_sentence_by_id] builds from a joined pair of rows. *)
Definition info_of (r : SentenceRow) (d : DocumentRow) : SentenceInfo :=
  {| info_id := sent_id r; info_text := sent_text r; info_index := sent_index r;
     info_filename := doc_filename d; info_file_path := doc_file_path d |}.

(** The write operations of [EmbeddingDatabase], for statements about
    arbitrary histories. *)
Inductive StoreOp : Type :=
  | OpAddDocument (filename file_path : string)
  | OpAddSentence (document_id : Z) (sentence_text : string)
      (sentence_index : Z) (embedding : vector)
  | OpClear.

Definition apply_op (op : StoreOp) (s : Store) : Store :=
  match op with
  | OpAddDocument filename file_path => (add_document filename file_path s).2
  | OpAddSentence document_id text position v =>
      (add_sentence_embedding document_id text position v s).2
  | OpClear => (clear_database s).2
  end.

Definition apply_ops (ops : list StoreOp) (s : Store) : Store :=
  foldl (λ s op, apply_op op s) s ops.

(** Referential integrity, which the schema declares and a default SQLite
    connection does not enforce: every sentence names a stored document. *)
Definition references_resolve (s : Store) : Prop :=
  Forall (λ r, sent_document_id r ∈ doc_id <$> documents s) (sentences s).

(** The list [get_all_embeddings] returns. *)
Definition embeddings_of (s : Store) : list (Z * vector) :=
  match (get_all_embeddings s).1 with
  | Returned l => l
  | Raised _ => []
  end.

(** The trained-or-flat condition under which a build over a store of one
    dimension goes through. *)
Definition index_ready `{FaissLib} (index_type : string) (s : Store) : Prop :=
  index_type = "flat"
  ∨ (index_type = "ivf"
     ∧ faiss_train
         (new_IndexIVFFlat (shape1 (embeddings_of s).*2)
            (ivf_nlist (length (embeddings_of s).*2)))
         (embeddings_of s).*2 = Returned tt).

(** ** search_index.py: the remaining methods *)



(** A two-dimensional array: its number of columns and its rows. *)
Record Matrix : Type := {
  cols : nat;
  rows : list vector
}.

(** The library part of [index.add(x)] for a matrix of the index width; it
    raises, for instance, on an index that is not trained. *)
Class FaissAdd : Type := {
  faiss_add : FaissIndex → list vector → result unit
}.

(** [index.add(x)] through the Python wrapper, which asserts
    [d == self.d]. *)
Definition index_add_checked `{FaissAdd} (ix : FaissIndex) (x : Matrix)
    : result FaissIndex :=
  if decide (cols x = ix_d ix) then
    match faiss_add ix (rows x) with
    | Returned _ => Returned (index_add ix (rows x))
    | Raised e => Raised e
    end
  else Raised AssertionError.

(** The records [add_vectors] itself sends to logging; the engine with
    them is a [Session]. *)
Inductive VectorsRecord : Type :=
  | error_index_uninitialised
  | info_vectors_added (n : nat)
  | error_add_failed (e : exn).

Definition Session : Type := (World * list VectorsRecord)%type.

Definition on_world {A} (m : M World A) : M Session A :=
  λ ss, let '(r, w') := m ss.1 in (r, (w', ss.2)).

Definition vectors_logging (r : VectorsRecord) : M Session unit :=
  modify (λ ss, (ss.1, ss.2 ++ [r])).

(** [for i, sentence_id in enumerate(sentence_ids):
       self.id_mapping[start_idx + i] = sentence_id] *)
Definition extend_mapping (start_idx : nat) (sentence_ids : list Z)
    (mapping : gmap Z Z) : gmap Z Z :=
  foldl (λ m (p : nat * Z), <[Z.of_nat (start_idx + p.1) := p.2]> m)
    mapping (enumerate sentence_ids).

Definition add_vectors `{FaissAdd} (sentence_ids : list Z) (embeddings : Matrix)
    : M Session bool :=
  ss ← get;
  match index ss.1 with
  | None => vectors_logging error_index_uninitialised;; mret false
  | Some ix =>
      try_except
        (let start_idx := ntotal ix in
         ix' ← of_result (index_add_checked ix embeddings);
         on_world (modify (set_index (Some ix')));;
         on_world (modify (λ w,
           set_id_mapping (extend_mapping start_idx sentence_ids (id_mapping w)) w));;
         on_world save_index;;
         vectors_logging (info_vectors_added (length sentence_ids));;
         mret true)
        (λ e, vectors_logging (error_add_failed e);; mret false)
  end.

(** ** app.py: the [/clear] route

    [db_manager] and [search_index.db] open the same database file, and
    the two file names the route removes are the artifact paths of
    [search_index]; the route does not touch the attributes of
    [search_index]. The value is the ['success'] flag of the response. *)
Definition clear_data : M World bool :=
  on_db clear_database;;
  modify (λ w, if exists_ (index_file w) then set_index_file absent w else w);;
  modify (λ w, if exists_ (mapping_file w) then set_mapping_file absent w else w);;
  mret true.

(** ** embedding_processor.py: [process_file] *)

(** What [process_file] takes from outside the two modelled modules: the
    path function [os.path.basename], the file reading and text heuristics
    behind [extract_sentences_from_file], and the encoder
    [self.model.encode], which may raise and yields one row per text it
    encoded. *)
Class Host : Type := {
  basename : string → string;
  extract_sentences_from_file : string → list string;
  encode : list string → result (list vector)
}.

Inductive ProcessorRecord : Type :=
  | info_processing_file (filename : string)
  | warning_no_sentences (filename : string)
  | info_sentences_extracted (filename : string) (n : nat)
  | error_batch_failed (first : nat) (last : Z) (e : exn)
  | info_file_processed (filename : string) (processed_count : nat)
  | warning_no_files (directory_path : string)
  | info_files_found (n : nat)
  | error_file_failed (file_path : string) (e : exn)
  | info_directory_processed (total_sentences : nat).

(** The store of the processor together with the records it logs. *)
Definition Ingest : Type := (Store * list ProcessorRecord)%type.

Definition on_store {A} (m : M Store A) : M Ingest A :=
  λ st, let '(r, s') := m st.1 in (r, (s', st.2)).

Definition processor_logging (r : ProcessorRecord) : M Ingest unit :=
  modify (λ st, (st.1, st.2 ++ [r])).

(** [range(0, stop, step)]: a zero step raises, a negative step yields
    nothing. *)
Definition range_step (stop : nat) (step : Z) : result (list nat) :=
  if decide (step = 0) then Raised ValueError
  else if decide (step < 0) then Returned []
  else Returned ((λ q, (q * Z.to_nat step)%nat)
                   <$> seq 0 ((stop + Z.to_nat step - 1) `div` Z.to_nat step)%nat).

(** A [for] loop that threads a local variable. *)
Fixpoint for_each {S A B} (l : list A) (body : A → B → M S B) (b : B) : M S B :=
  match l with
  | [] => mret b
  | x :: l' => b' ← body x b; for_each l' body b'
  end.

(** [for j, (sentence, embedding) in enumerate(zip(batch_sentences, embeddings))]:
    the insert under position [i + j] and the increment of
    [processed_count]. *)
Fixpoint store_pairs (document_id : Z) (i j : nat) (pairs : list (string * vector))
    (processed_count : nat) : M Store nat :=
  match pairs with
  | [] => mret processed_count
  | (sentence, embedding) :: pairs' =>
      add_sentence_embedding document_id sentence (Z.of_nat (i + j)) embedding;;
      store_pairs document_id i (S j) pairs' (S processed_count)
  end.

(** The body of the batch loop for the start index [i]. *)
Definition process_batch `{Host} (document_id : Z) (sentences : list string)
    (batch_size : Z) (i : nat) (processed_count : nat) : M Ingest nat :=
  let batch_sentences := take (Z.to_nat batch_size) (drop i sentences) in
  try_except
    (embeddings ← of_result (encode batch_sentences);
     on_store (store_pairs document_id i 0 (zip batch_sentences embeddings)
                 processed_count))
    (λ e,
       processor_logging (error_batch_failed i (Z.of_nat i + batch_size) e);;
       mret processed_count).

Definition process_file `{Host} (file_path : string) (batch_size : Z)
    : M Ingest nat :=
  let filename := basename file_path in
  processor_logging (info_processing_file filename);;
  document_id ← on_store (add_document filename file_path);
  let sentences := extract_sentences_from_file file_path in
  match sentences with
  | [] => processor_logging (warning_no_sentences filename);; mret 0%nat
  | _ :: _ =>
      processor_logging (info_sentences_extracted filename (length sentences));;
      starts ← of_result (range_step (length sentences) batch_size);
      processed_count ←
        for_each starts (process_batch document_id sentences batch_size) 0%nat;
      processor_logging (info_file_processed filename processed_count);;
      mret processed_count
  end.

(** What one run stores, in closed form: for each batch whose encoding
    returns, its texts paired with the rows returned, each under its
    position in the document. *)
Definition batch_items `{Host} (sentences : list string) (batch_size : Z) (i : nat)
    : list (nat * string * vector) :=
  match encode (take (Z.to_nat batch_size) (drop i sentences)) with
  | Returned embeddings =>
      imap (λ j (p : string * vector), ((i + j)%nat, p.1, p.2))
        (zip (take (Z.to_nat batch_size) (drop i sentences)) embeddings)
  | Raised _ => []
  end.

Definition ingested_items `{Host} (sentences : list string) (batch_size : Z)
    : list (nat * string * vector) :=
  match range_step (length sentences) batch_size with
  | Returned starts => starts ≫= batch_items sentences batch_size
  | Raised _ => []
  end.

(** The sentence rows appended for a list of items. *)
Definition item_rows (document_id : Z) (first_id : Z)
    (items : list (nat * string * vector)) : list SentenceRow :=
  imap (λ n (x : nat * string * vector),
          {| sent_id := first_id + Z.of_nat n; sent_document_id := document_id;
             sent_text := x.1.2; sent_index := Z.of_nat x.1.1;
             sent_embedding := Some (tobytes x.2) |}) items.

Definition append_items (document_id : Z) (items : list (nat * string * vector))
    (s : Store) : Store :=
  {| documents := documents s;
     sentences := sentences s ++ item_rows document_id (sentences_seq s + 1) items;
     documents_seq := documents_seq s;
     sentences_seq := sentences_seq s + Z.of_nat (length items) |}.

(** An encoder that returns exactly one row for each text of every batch
    of the run. *)
Definition encodes_all `{Host} (sentences : list string) (batch_size : Z) : Prop :=
  ∀ i, ∃ embeddings,
    encode (take (Z.to_nat batch_size) (drop i sentences)) = Returned embeddings
    ∧ length embeddings = length (take (Z.to_nat batch_size) (drop i sentences)).

(** ** embedding_processor.py: [process_directory] *)

(** [os.path.join] and [glob.glob], which read the file system. *)
Class FileSystem : Type := {
  path_join : string → string → string;
  glob : string → list string
}.

(** The list [files]: the matches of each pattern in turn, the default
    patterns when none are given. A path that two patterns match stands
    in it twice. *)
Definition matched_files `{FileSystem} (directory_path : string)
    (file_patterns : option (list string)) : list string :=
  pattern ← default ["*.md"; "*.txt"] file_patterns;
  glob (path_join directory_path pattern).

(** The body of the loop over [files]; the local variables are the dict
    [results] and [total_sentences]. *)
Definition process_entry `{Host} (batch_size : Z) (file_path : string)
    (acc : gmap string nat * nat) : M Ingest (gmap string nat * nat) :=
  try_except
    (count ← process_file file_path batch_size;
     mret (<[file_path := count]> acc.1, (acc.2 + count)%nat))
    (λ e,
       processor_logging (error_file_failed file_path e);;
       mret (<[file_path := 0%nat]> acc.1, acc.2)).

Definition process_directory `{Host} `{FileSystem} (directory_path : string)
    (file_patterns : option (list string)) (batch_size : Z)
    : M Ingest (gmap string nat) :=
  let files := matched_files directory_path file_patterns in
  match files with
  | [] => processor_logging (warning_no_files directory_path);; mret ∅
  | _ :: _ =>
      processor_logging (info_files_found (length files));;
      acc ← for_each files (process_entry batch_size) (∅, 0%nat);
      processor_logging (info_directory_processed acc.2);;
      mret acc.1
  end.

(** [sum(results.values())] *)
Definition dict_sum (results : gmap string nat) : nat :=
  sum_list (map_to_list results).*2.

(** ** Example libraries and hosts *)


(** [posixpath.basename]: what follows the last slash (character 47). *)
Definition slash : Ascii.ascii := Ascii.ascii_of_nat 47.

Fixpoint after_last_slash (path current : string) : string :=
  match path with
  | EmptyString => current
  | String c rest =>
      if Ascii.eqb c slash then after_last_slash rest EmptyString
      else after_last_slash rest (current +:+ String c EmptyString)
  end.

(** An encoder that raises on a batch that holds the text ["bad"] and
    otherwise returns one two-dimensional row per text. *)
Definition sample_encode (texts : list string) : result (list vector) :=
  if decide ("bad" ∈ texts) then Raised RuntimeError
  else Returned ((λ t, [inject_Z (Z.of_nat (String.length t)); 1%Q]) <$> texts).

Definition sample_extract (file_path : string) : list string :=
  if decide (file_path = "/docs/a.md") then ["alpha one"; "beta two"; "gamma three"]
  else if decide (file_path = "/docs/b.md")
       then ["first"; "second"; "bad"; "fourth"; "fifth"]
       else [].

Definition sample_host : Host :=
  {| basename := λ path, after_last_slash path EmptyString;
     extract_sentences_from_file := sample_extract;
     encode := sample_encode |}.

Definition ingest0 : Ingest := (init_database, []).

(** A directory ["/docs"] with the two files of [sample_host]. *)
Definition sample_fs : FileSystem :=
  {| path_join := λ a p, a +:+ "/" +:+ p;
     glob := λ pattern, if decide (pattern = "/docs/*.md")
                        then ["/docs/a.md"; "/docs/b.md"] else [] |}.

(** * Properties of the store *)

Section store_invariant.

Lemma init_database_wf : store_wf init_database.
Proof. split; simpl; constructor. Qed.

Lemma add_document_wf filename file_path s :
  store_wf s → store_wf (add_document filename file_path s).2.
Proof.
  intros [Hids Hpaths Hsids Hdseq Hsseq]. unfold add_document.
  destruct (list_find _ _) as [[i d]|] eqn:Hfind; simpl; [by split|].
  apply list_find_None in Hfind.
  split; simpl; auto.
  - rewrite fmap_app. apply NoDup_app. split_and!; [done| |apply NoDup_singleton].
    intros x Hx ->%list_elem_of_singleton.
    apply list_elem_of_fmap in Hx as (d & Hd & Hin).
    rewrite Forall_forall in Hdseq. specialize (Hdseq d Hin). simpl in *. lia.
  - rewrite fmap_app. apply NoDup_app. split_and!; [done| |apply NoDup_singleton].
    intros x Hx ->%list_elem_of_singleton.
    apply list_elem_of_fmap in Hx as (d & Hd & Hin).
    rewrite Forall_forall in Hfind. simpl in Hd. by apply (Hfind d Hin).
  - apply Forall_app. split.
    + eapply Forall_impl; [exact Hdseq|]. simpl. intros; lia.
    + repeat constructor. simpl. lia.
Qed.

Lemma add_sentence_embedding_wf document_id text position v s :
  store_wf s → store_wf (add_sentence_embedding document_id text position v s).2.
Proof.
  intros [Hids Hpaths Hsids Hdseq Hsseq]. split; simpl; auto.
  - rewrite fmap_app. apply NoDup_app. split_and!; [done| |apply NoDup_singleton].
    intros x Hx ->%list_elem_of_singleton.
    apply list_elem_of_fmap in Hx as (r & Hr & Hin).
    rewrite Forall_forall in Hsseq. specialize (Hsseq r Hin). simpl in *. lia.
  - apply Forall_app. split.
    + eapply Forall_impl; [exact Hsseq|]. simpl. intros; lia.
    + repeat constructor. simpl. lia.
Qed.

Lemma clear_database_wf s : store_wf s → store_wf (clear_database s).2.
Proof. intros _. split; simpl; constructor. Qed.

End store_invariant.

Section ordering.

Global Instance by_id_total : Total by_id.
Proof. intros a b. unfold by_id. lia. Qed.

Global Instance by_id_trans : Transitive by_id.
Proof. intros a b c. unfold by_id. lia. Qed.

Lemma StronglySorted_le_NoDup_lt (l : list Z) :
  StronglySorted Z.le l → NoDup l → StronglySorted Z.lt l.
Proof.
  induction 1 as [|x l Hl IH Hx]; intros Hnd; [constructor|].
  apply NoDup_cons in Hnd as [Hnotin Hnd].
  constructor; [by apply IH|].
  rewrite Forall_forall in Hx |- *. intros y Hy.
  specialize (Hx y Hy).
  assert (x ≠ y) by (intros ->; done). lia.
Qed.

Lemma omap_embedding_ids (rows : list SentenceRow) :
  Forall has_embedding rows →
  (omap embedding_of_row rows).*1 = sent_id <$> rows.
Proof.
  induction 1 as [|r rows [blob Hr] _ IH]; [done|].
  cbn. unfold embedding_of_row at 1. rewrite Hr. cbn. f_equal. exact IH.
Qed.

Lemma embedded_rows_perm s :
  merge_sort by_id (filter has_embedding (sentences s))
    ≡ₚ filter has_embedding (sentences s).
Proof. apply merge_sort_Permutation. Qed.

Lemma embedded_rows_Forall s :
  Forall has_embedding (merge_sort by_id (filter has_embedding (sentences s))).
Proof.
  rewrite embedded_rows_perm. apply Forall_forall.
  by intros r [? _]%list_elem_of_filter.
Qed.

End ordering.

Section store_claims.

Lemma embedded_ids_sorted s :
  store_wf s →
  StronglySorted Z.lt
    (sent_id <$> merge_sort by_id (filter has_embedding (sentences s))).
Proof.
  intros Hwf. apply StronglySorted_le_NoDup_lt.
  - eapply StronglySorted_fmap; [|apply (StronglySorted_merge_sort by_id)].
    by intros a b.
  - rewrite embedded_rows_perm.
    apply (sublist_NoDup _ (sent_id <$> sentences s));
      [apply (wf_sent_ids _ Hwf)|apply fmap_sublist, sublist_filter].
Qed.

Lemma get_all_embeddings_elem s sid v :
  (sid, v) ∈ (omap embedding_of_row
                (merge_sort by_id (filter has_embedding (sentences s))))
  ↔ ∃ r, r ∈ sentences s ∧ sent_id r = sid ∧ sent_embedding r = Some v.
Proof.
  rewrite list_elem_of_omap. split.
  - intros (r & Hin & Hr). exists r.
    rewrite embedded_rows_perm in Hin.
    apply list_elem_of_filter in Hin as [_ Hin].
    unfold embedding_of_row, frombuffer in Hr.
    destruct (sent_embedding r); simpl in Hr; [|done].
    by injection Hr as -> ->.
  - intros (r & Hin & <- & Hemb). exists r. split.
    + rewrite embedded_rows_perm. apply list_elem_of_filter.
      split; [by eexists|done].
    + unfold embedding_of_row. by rewrite Hemb.
Qed.

Lemma get_all_embeddings_length s :
  length (omap embedding_of_row
            (merge_sort by_id (filter has_embedding (sentences s))))
  = length (filter has_embedding (sentences s)).
Proof.
  rewrite <- (length_fmap fst), omap_embedding_ids by apply embedded_rows_Forall.
  by rewrite length_fmap, embedded_rows_perm.
Qed.

(** C5: on every store that satisfies its schema, [get_all_embeddings]
    returns without changing the store; the pairs it returns are exactly
    the (id, vector) pairs of the sentences that have an embedding, one
    per such sentence, in strictly ascending order of sentence id; and a
    second call with no write in between returns the same sequence. *)
Theorem get_all_embeddings_ascending_stable (s : Store) :
  store_wf s →
  ∃ l, get_all_embeddings s = (Returned l, s)
     ∧ StronglySorted Z.lt (l.*1)
     ∧ (∀ sid v, (sid, v) ∈ l ↔
          ∃ r, r ∈ sentences s ∧ sent_id r = sid ∧ sent_embedding r = Some v)
     ∧ length l = stat_embeddings (get_stats s)
     ∧ get_all_embeddings (get_all_embeddings s).2 = (Returned l, s).
Proof.
  intros Hwf. eexists. split; [reflexivity|]. split_and!.
  - rewrite omap_embedding_ids by apply embedded_rows_Forall.
    by apply embedded_ids_sorted.
  - apply get_all_embeddings_elem.
  - apply get_all_embeddings_length.
  - reflexivity.
Qed.

Lemma store3_wf : store_wf store3.
Proof.
  split; apply (bool_decide_unpack _); by vm_compute.
Qed.

Lemma get_all_embeddings_ascending_stable_witness :
  ∃ l, get_all_embeddings store3 = (Returned l, store3)
     ∧ StronglySorted Z.lt (l.*1)
     ∧ (∀ sid v, (sid, v) ∈ l ↔
          ∃ r, r ∈ sentences store3 ∧ sent_id r = sid ∧ sent_embedding r = Some v)
     ∧ length l = stat_embeddings (get_stats store3)
     ∧ get_all_embeddings (get_all_embeddings store3).2 = (Returned l, store3).
Proof. exact (get_all_embeddings_ascending_stable store3 store3_wf). Defined.

End store_claims.

Section document_claims.

Lemma one_row_per_path (file_path : string) (docs : list DocumentRow) d :
  NoDup (doc_file_path <$> docs) → d ∈ docs → doc_file_path d = file_path →
  length (filter (λ d', doc_file_path d' = file_path) docs) = 1%nat.
Proof.
  induction docs as [|x docs IH]; intros Hnd Hin Hd; [by apply elem_of_nil in Hin|].
  rewrite fmap_cons in Hnd. apply NoDup_cons in Hnd as [Hx Hnd].
  rewrite filter_cons. destruct (decide (doc_file_path x = file_path)) as [Hxp|Hxp].
  - simpl. f_equal. apply length_zero_iff_nil.
    destruct (filter _ docs) as [|y ys] eqn:Hf; [done|].
    assert (y ∈ filter (λ d', doc_file_path d' = file_path) docs) as Hy
      by (rewrite Hf; left).
    apply list_elem_of_filter in Hy as [Hyp Hy].
    exfalso. apply Hx. rewrite Hxp, <- Hyp. by apply list_elem_of_fmap_2.
  - apply elem_of_cons in Hin as [->|Hin]; [done|]. by apply IH.
Qed.

Lemma filter_none_of {A} (P : A → Prop) `{∀ x, Decision (P x)} (l : list A) :
  Forall (λ x, ¬ P x) l → filter P l = [].
Proof.
  induction 1 as [|x l Hx _ IH]; [done|]. by rewrite filter_cons_False.
Qed.

Lemma add_document_existing filename file_path s i d :
  list_find (λ d, doc_file_path d = file_path) (documents s) = Some (i, d) →
  add_document filename file_path s = (Returned (doc_id d), s).
Proof. intros Hfind. unfold add_document. by rewrite Hfind. Qed.

Lemma add_document_fresh filename file_path s :
  list_find (λ d, doc_file_path d = file_path) (documents s) = None →
  add_document filename file_path s
  = (Returned (documents_seq s + 1), (insert_document filename file_path s).2).
Proof. intros Hfind. unfold add_document. by rewrite Hfind. Qed.

(** C6: on every store that satisfies its schema, two calls of
    [add_document] with one path, whatever the two file names, return the
    same document id; the second call leaves the store as the first one
    left it, and that store holds exactly one document row with the
    path. *)
Theorem add_document_idempotent (s : Store) (filename1 filename2 file_path : string) :
  store_wf s →
  let first := add_document filename1 file_path s in
  let second := add_document filename2 file_path first.2 in
  ∃ id, first.1 = Returned id ∧ second.1 = Returned id ∧ second.2 = first.2
      ∧ length (filter (λ d, doc_file_path d = file_path) (documents second.2)) = 1%nat.
Proof.
  intros Hwf first second. subst first second.
  destruct (list_find (λ d, doc_file_path d = file_path) (documents s))
    as [[i d]|] eqn:Hfind.
  - rewrite (add_document_existing _ _ _ _ _ Hfind). simpl.
    rewrite (add_document_existing _ _ _ _ _ Hfind). simpl.
    exists (doc_id d). split_and!; try done.
    apply list_find_Some in Hfind as (Hlook & Hpath & _).
    eapply one_row_per_path; [apply (wf_doc_paths _ Hwf)| |exact Hpath].
    by eapply list_elem_of_lookup_2.
  - rewrite (add_document_fresh _ _ _ Hfind). simpl.
    set (new := {| doc_id := documents_seq s + 1; doc_filename := filename1;
                   doc_file_path := file_path |}).
    assert (list_find (λ d, doc_file_path d = file_path) (documents s ++ [new])
            = Some (length (documents s), new)) as Hnew.
    { apply list_find_Some. split_and!.
      - by rewrite lookup_app_r, Nat.sub_diag by lia.
      - done.
      - intros j y Hy Hj. rewrite lookup_app_l in Hy by done.
        apply list_find_None in Hfind. rewrite Forall_forall in Hfind.
        apply Hfind. by eapply list_elem_of_lookup_2. }
    pose proof (add_document_existing filename2 file_path
                  (insert_document filename1 file_path s).2 _ _ Hnew) as Hsecond.
    simpl in Hsecond. fold new in Hsecond |- *. rewrite Hsecond. simpl.
    exists (documents_seq s + 1). split_and!; try done.
    rewrite filter_app.
    apply list_find_None in Hfind.
    rewrite (filter_none_of _ _ Hfind), filter_cons_True; done.
Qed.

Lemma add_document_idempotent_witness :
  let first := add_document "a.txt" "/docs/a.txt" store3 in
  let second := add_document "copy of a.txt" "/docs/a.txt" first.2 in
  ∃ id, first.1 = Returned id ∧ second.1 = Returned id ∧ second.2 = first.2
      ∧ length (filter (λ d, doc_file_path d = "/docs/a.txt") (documents second.2)) = 1%nat.
Proof.
  exact (add_document_idempotent store3 "a.txt" "copy of a.txt" "/docs/a.txt" store3_wf).
Defined.

End document_claims.

Section dimension_claims.

Lemma store3_dimension : established_dimension store3 2.
Proof.
  split.
  - eexists. split; [left|]. by eexists.
  - intros r blob Hin Hblob. unfold store3, run in Hin. simpl in Hin.
    repeat (apply elem_of_cons in Hin as [->|Hin]);
      try (simpl in Hblob; by injection Hblob as <-).
    by apply elem_of_nil in Hin.
Qed.

(** C1, as stated, fails: [store3] has the established dimension 2, the
    vector has three items, and the call returns normally, raises both
    the sentence and the embedding count, and stores the vector as it
    is. *)
Lemma add_sentence_embedding_wrong_length_accepted :
  let v := [1%Q; 2%Q; 3%Q] in
  let out := add_sentence_embedding 1 "delta" 3 v store3 in
  established_dimension store3 2 ∧ length v ≠ 2%nat
  ∧ out.1 = Returned tt
  ∧ get_stats store3
    = {| stat_documents := 1; stat_sentences := 3; stat_embeddings := 3 |}
  ∧ get_stats out.2
    = {| stat_documents := 1; stat_sentences := 4; stat_embeddings := 4 |}
  ∧ (get_all_embeddings out.2).1
    = Returned [(1, [1%Q; 0%Q]); (2, [(1#2)%Q; (1#2)%Q]);
                (3, [(1#4)%Q; 1%Q]); (4, v)].
Proof.
  split_and!; [apply store3_dimension|by vm_compute|reflexivity..].
Qed.

(** C1 (amended): [add_sentence_embedding] checks no length. For every
    store and every vector it returns normally and appends one sentence
    row that carries the vector unchanged under the next sentence id; the
    document count stays, the sentence and the embedding count each grow
    by one, and [get_all_embeddings] then lists the vector under the new
    id. *)
Theorem add_sentence_embedding_unchecked (s : Store) (document_id : Z)
    (text : string) (position : Z) (v : vector) :
  let out := add_sentence_embedding document_id text position v s in
  out.1 = Returned tt
  ∧ documents out.2 = documents s
  ∧ sentences out.2
    = sentences s ++ [{| sent_id := sentences_seq s + 1;
                         sent_document_id := document_id; sent_text := text;
                         sent_index := position; sent_embedding := Some v |}]
  ∧ stat_documents (get_stats out.2) = stat_documents (get_stats s)
  ∧ stat_sentences (get_stats out.2) = S (stat_sentences (get_stats s))
  ∧ stat_embeddings (get_stats out.2) = S (stat_embeddings (get_stats s))
  ∧ ∃ l, (get_all_embeddings out.2).1 = Returned l ∧ (sentences_seq s + 1, v) ∈ l.
Proof.
  simpl. split_and!; try reflexivity.
  - rewrite length_app. simpl. lia.
  - rewrite filter_app, length_app, filter_cons_True by (by eexists).
    simpl. lia.
  - eexists. split; [reflexivity|].
    apply (get_all_embeddings_elem
             (add_sentence_embedding document_id text position v s).2).
    eexists. split; [simpl; apply elem_of_app; right; left|done].
Qed.

End dimension_claims.

(** * Properties of the search engine *)

Ltac py_unfold :=
  unfold mbind, M_bind, bind, mret, M_ret, ret, try_except, get, modify,
    raise, of_result, logging, on_db in *.

Section search_loop_facts.

Context (s : Store) (mapping : gmap Z Z) (threshold : Q).

Lemma Qlt_bool_false x y : Qlt_bool x y = false ↔ (y <= x)%Q.
Proof.
  unfold Qlt_bool. rewrite negb_false_iff. apply Qle_bool_iff.
Qed.

Lemma Qlt_bool_true x y : Qlt_bool x y = true ↔ ¬ (y <= x)%Q.
Proof.
  unfold Qlt_bool. rewrite negb_true_iff, <- Qle_bool_iff.
  by destruct (Qle_bool y x).
Qed.

Lemma search_step_hit_result results i h :
  search_step s mapping threshold results i h
  = results ++ option_list (hit_result s mapping threshold (i, h)).
Proof.
  destruct h as [score idx].
  unfold search_step, hit_result, hydrate, valid_hit, score_at_least. simpl.
  destruct (decide (idx = no_result)) as [Hidx|Hidx].
  - rewrite decide_False by (by intros ?). by rewrite app_nil_r.
  - rewrite decide_True by done.
    destruct (Qlt_bool score threshold) eqn:Hlt.
    + apply Qlt_bool_true in Hlt. rewrite decide_False by done.
      by rewrite app_nil_r.
    + apply Qlt_bool_false in Hlt. rewrite decide_True by done.
      destruct (mapping !! idx) as [sentence_id|]; simpl; [|by rewrite app_nil_r].
      destruct (get_sentence_by_id sentence_id s); simpl; [done|by rewrite app_nil_r].
Qed.

Lemma search_loop_from results i hits :
  search_loop s mapping threshold results i hits
  = results ++ omap (hit_result s mapping threshold)
                 (imap (λ j h, ((i + j)%nat, h)) hits).
Proof.
  revert results i. induction hits as [|h hits IH]; intros results i.
  - by rewrite app_nil_r.
  - simpl. rewrite IH, search_step_hit_result, <- app_assoc. f_equal.
    rewrite Nat.add_0_r.
    assert (imap ((λ j x, ((i + j)%nat, x)) ∘ S) hits
            = imap (λ j x, ((S i + j)%nat, x)) hits) as ->
      by (apply imap_ext; intros j x _; simpl; f_equal; lia).
    by destruct (hit_result s mapping threshold (i, h)).
Qed.

Lemma search_loop_enumerate hits :
  search_loop s mapping threshold [] 0 hits
  = omap (hit_result s mapping threshold) (enumerate hits).
Proof. by rewrite search_loop_from. Qed.



End search_loop_facts.

Section engine_facts.

Context `{FaissLib}.

Lemma load_index_loads w ix data :
  index_file w = holds ix → mapping_file w = holds data →
  load_index w = (Returned true, loaded_world ix data w).
Proof.
  intros Hi Hm. unfold load_index. py_unfold. simpl.
  rewrite Hi, Hm. simpl. rewrite Hi. simpl. rewrite Hm.
  unfold loaded_world, add_log, set_dimension, set_id_mapping, set_index. simpl.
  by rewrite Hi, Hm.
Qed.

Lemma load_index_fails w :
  artifacts_loadable w = false →
  ∃ w', load_index w = (Returned false, w')
      ∧ db w' = db w
      ∧ index_file w' = index_file w ∧ mapping_file w' = mapping_file w
      ∧ (index w = None → index w' = None)
      ∧ ∃ records, log w' = log w ++ records.
Proof.
  unfold artifacts_loadable, load_index. py_unfold. simpl.
  destruct (index_file w) eqn:Hi; destruct (mapping_file w) eqn:Hm;
    simpl; rewrite ?Hi, ?Hm; simpl; rewrite ?Hm; simpl;
    try discriminate; intros _;
    (eexists; split; [reflexivity|]; simpl; split_and!; try done;
     rewrite <- ?app_assoc; by eexists).
Qed.

Lemma search_with_index w ix x k threshold :
  index w = Some ix →
  search x k threshold w
  = match index_search ix x k with
    | Returned hits =>
        (Returned (search_loop (db w) (id_mapping w) threshold [] 0 hits), w)
    | Raised e => (Returned [], add_log [error_search_failed e] w)
    end.
Proof.
  intros Hix. unfold search. py_unfold. simpl. rewrite Hix. simpl. rewrite Hix.
  by destruct (index_search ix x k).
Qed.

Lemma search_unavailable w x k threshold :
  index w = None → artifacts_loadable w = false →
  ∃ w', load_index w = (Returned false, w')
      ∧ search x k threshold w
        = (Returned [], add_log [error_index_not_loaded] w').
Proof.
  intros Hix Hart. destruct (load_index_fails w Hart) as (w' & Hload & _).
  exists w'. split; [done|].
  unfold search. py_unfold. simpl. rewrite Hix. by rewrite Hload.
Qed.

Lemma search_lazy_load w ix data x k threshold :
  index w = None → index_file w = holds ix → mapping_file w = holds data →
  search x k threshold w = search x k threshold (loaded_world ix data w).
Proof.
  intros Hix Hi Hm.
  rewrite (search_with_index (loaded_world ix data w) ix) by done.
  unfold search. py_unfold. simpl. rewrite Hix.
  rewrite (load_index_loads w ix data Hi Hm). simpl.
  by destruct (index_search ix x k).
Qed.

(** Every call of [search] returns a list: the raw hits of the index the
    world holds after the call, processed by the loop; the store is left
    as it was. *)
Lemma search_spec w x k threshold :
  let out := search x k threshold w in
  out.1 = Returned (search_loop (db out.2) (id_mapping out.2) threshold [] 0
                      (raw_hits x k out.2))
  ∧ db out.2 = db w.
Proof.
  assert (∀ w ix, index w = Some ix →
    let out := search x k threshold w in
    out.1 = Returned (search_loop (db out.2) (id_mapping out.2) threshold [] 0
                        (raw_hits x k out.2))
    ∧ db out.2 = db w) as Hready.
  { clear w. intros w ix Hix. simpl. rewrite (search_with_index w ix) by done.
    unfold raw_hits.
    destruct (index_search ix x k) eqn:Hs; simpl; rewrite Hix, Hs; done. }
  destruct (index w) as [ix|] eqn:Hix; [by eapply Hready|].
  destruct (artifacts_loadable w) eqn:Hart.
  - unfold artifacts_loadable in Hart.
    destruct (index_file w) as [| |ix] eqn:Hi; try discriminate.
    destruct (mapping_file w) as [| |data] eqn:Hm; try discriminate.
    simpl. rewrite (search_lazy_load w ix data) by done.
    by apply (Hready (loaded_world ix data w) ix).
  - destruct (load_index_fails w Hart) as (w' & Hload & Hdb & _ & _ & Hnone & _).
    destruct (search_unavailable w x k threshold Hix Hart) as (w'' & Hload' & ->).
    rewrite Hload in Hload'. injection Hload' as <-.
    simpl. unfold raw_hits. simpl. by rewrite (Hnone Hix).
Qed.

End engine_facts.

Section result_facts.

Context (s : Store) (mapping : gmap Z Z) (threshold : Q).

Local Abbreviation results_from i hits :=
  (omap (hit_result s mapping threshold)
     (imap (λ j (h : hit), ((i + j)%nat, h)) hits)).

Lemma hit_result_Some i score idx r :
  hit_result s mapping threshold (i, (score, idx)) = Some r ↔
  idx ≠ no_result ∧ (threshold <= score)%Q ∧
  ∃ sentence_id sentence_info,
    mapping !! idx = Some sentence_id ∧
    get_sentence_by_id sentence_id s = Some sentence_info ∧
    r = {| res_info := sentence_info; similarity_score := score;
           rank := Z.of_nat i + 1 |}.
Proof.
  unfold hit_result, hydrate, valid_hit, score_at_least. simpl.
  destruct (decide (idx ≠ no_result)); [|split; [done|tauto]].
  destruct (decide (threshold <= score)%Q); [|split; [done|tauto]].
  destruct (mapping !! idx) as [sentence_id|] eqn:Hmap; simpl.
  - destruct (get_sentence_by_id sentence_id s) as [info|] eqn:Hinfo; simpl.
    + split.
      * intros [= <-]. split_and!; [done..|]. by exists sentence_id, info.
      * intros (_ & _ & sid & info' & [= <-] & Hinfo' & ->).
        rewrite Hinfo in Hinfo'. by injection Hinfo' as <-.
    + split; [done|].
      intros (_ & _ & sid & info' & [= <-] & Hinfo' & _). congruence.
  - split; [done|]. by intros (_ & _ & sid & info' & ? & _).
Qed.

Lemma hit_result_rank ih r :
  hit_result s mapping threshold ih = Some r →
  rank r = Z.of_nat ih.1 + 1 ∧ similarity_score r = ih.2.1.
Proof.
  destruct ih as [i [score idx]].
  intros (_ & _ & ? & ? & _ & _ & ->)%hit_result_Some. done.
Qed.

Lemma hit_kept_at i h :
  is_Some (hit_result s mapping threshold (i, h)) ↔ hit_kept s mapping threshold h.
Proof.
  destruct h as [score idx]. unfold hit_kept, is_Some.
  split; intros [r Hr]; apply hit_result_Some in Hr
    as (? & ? & sid & info & ? & ? & _); eexists; apply hit_result_Some; eauto 10.
Qed.

Lemma results_from_elem i hits r :
  r ∈ results_from i hits ↔
  ∃ j h, hits !! j = Some h ∧
         hit_result s mapping threshold ((i + j)%nat, h) = Some r.
Proof.
  rewrite list_elem_of_omap. split.
  - intros (ih & Hin & Hr). apply elem_of_lookup_imap in Hin as (j & h & -> & Hj).
    eauto.
  - intros (j & h & Hj & Hr). eexists. split; [|exact Hr].
    by apply (elem_of_lookup_imap_2 (λ j h, ((i + j)%nat, h))).
Qed.

Lemma results_from_cons i h hits :
  results_from i (h :: hits)
  = option_list (hit_result s mapping threshold (i, h)) ++ results_from (S i) hits.
Proof.
  rewrite imap_cons. csimpl. rewrite Nat.add_0_r.
  assert (imap ((λ j x, ((i + j)%nat, x)) ∘ S) hits
          = imap (λ j x, ((S i + j)%nat, x)) hits) as ->
    by (apply imap_ext; intros j x _; simpl; f_equal; lia).
  by destruct (hit_result s mapping threshold (i, h)).
Qed.

Lemma results_from_rank_bound i hits :
  Forall (λ r, Z.of_nat i + 1 ≤ rank r) (results_from i hits).
Proof.
  apply Forall_forall. intros r (j & h & _ & Hr)%results_from_elem.
  apply hit_result_rank in Hr as [-> _]. simpl. lia.
Qed.

Lemma results_from_ranks_increase i hits :
  StronglySorted Z.lt (rank <$> results_from i hits).
Proof.
  revert i. induction hits as [|h hits IH]; intros i; [constructor|].
  rewrite results_from_cons.
  destruct (hit_result s mapping threshold (i, h)) as [r|] eqn:Hr;
    [|exact (IH (S i))].
  apply (SSorted_cons (rank r)); [exact (IH (S i))|].
  apply hit_result_rank in Hr as [Hr _]. simpl in Hr.
  apply Forall_fmap. eapply Forall_impl; [apply (results_from_rank_bound (S i))|].
  simpl. intros; lia.
Qed.

Lemma results_from_descending i (hits : list hit) :
  descending hits.*1 → descending (similarity_score <$> results_from i hits).
Proof.
  unfold descending. revert i.
  induction hits as [|h hits IH]; intros i Hdesc; [constructor|].
  rewrite fmap_cons in Hdesc. apply StronglySorted_inv in Hdesc as [Hdesc Hh].
  rewrite results_from_cons.
  destruct (hit_result s mapping threshold (i, h)) as [r|] eqn:Hr;
    [|exact (IH (S i) Hdesc)].
  apply (SSorted_cons (similarity_score r)); [exact (IH (S i) Hdesc)|].
  apply hit_result_rank in Hr as [_ Hr]. simpl in Hr. rewrite Hr.
  apply Forall_fmap, Forall_forall.
  intros r' (j & h' & Hj & Hr')%results_from_elem.
  apply hit_result_rank in Hr' as [_ Hr']. simpl in *. rewrite Hr'.
  rewrite Forall_forall in Hh. apply Hh.
  apply list_elem_of_fmap_2. by eapply list_elem_of_lookup_2.
Qed.

Lemma results_from_none i hits :
  Forall (λ h, ¬ hit_kept s mapping threshold h) hits → results_from i hits = [].
Proof.
  revert i. induction hits as [|h hits IH]; intros i Hnone; [done|].
  apply Forall_cons in Hnone as [Hh Hnone].
  rewrite results_from_cons, IH by done.
  destruct (hit_result s mapping threshold (i, h)) eqn:Hr; [|done].
  exfalso. apply Hh. apply (hit_kept_at i). by eexists.
Qed.

(** When no dropped hit stands before a kept one, the ranks are
    consecutive. *)
Lemma results_from_ranks_consecutive i hits :
  (∀ a b h h', (a < b)%nat → hits !! a = Some h → hits !! b = Some h' →
     hit_kept s mapping threshold h' → hit_kept s mapping threshold h) →
  rank <$> results_from i hits
  = seqZ (Z.of_nat i + 1) (Z.of_nat (length (results_from i hits))).
Proof.
  revert i. induction hits as [|h hits IH]; intros i Hprefix; [done|].
  rewrite results_from_cons.
  destruct (hit_result s mapping threshold (i, h)) as [r|] eqn:Hr.
  - change (rank r :: (rank <$> results_from (S i) hits)
            = seqZ (Z.of_nat i + 1)
                (Z.of_nat (S (length (results_from (S i) hits))))).
    rewrite IH.
    + apply hit_result_rank in Hr as [-> _]. cbn [fst].
      rewrite (seqZ_cons (Z.of_nat i + 1)) by lia. f_equal. f_equal; lia.
    + intros a b x y Hab Ha Hb. by apply (Hprefix (S a) (S b)); [lia|..].
  - rewrite results_from_none; [done|].
    apply Forall_forall. intros h' Hin Hkept.
    apply list_elem_of_lookup_1 in Hin as [b Hb].
    assert (hit_kept s mapping threshold h) as Hh
      by (by apply (Hprefix 0%nat (S b) h h'); [lia|..]).
    apply (hit_kept_at i) in Hh as [r Hh]. congruence.
Qed.

End result_facts.

Section search_claims.

Context `{FaissLib}.

Lemma search_returns_results_from w x k threshold :
  let out := search x k threshold w in
  out.1 = Returned (search_results x k threshold w)
  ∧ search_results x k threshold w
    = omap (hit_result (db out.2) (id_mapping out.2) threshold)
        (enumerate (raw_hits x k out.2))
  ∧ db out.2 = db w.
Proof.
  simpl. unfold search_results.
  destruct (search_spec w x k threshold) as [Hout Hdb]. simpl in Hout, Hdb.
  rewrite Hout. split_and!; [done| |done].
  by rewrite search_loop_enumerate.
Qed.

Lemma results_elem s mapping threshold (hits : list hit) r :
  r ∈ omap (hit_result s mapping threshold) (enumerate hits) ↔
  ∃ j h, hits !! j = Some h ∧ hit_result s mapping threshold (j, h) = Some r.
Proof. exact (results_from_elem s mapping threshold 0 hits r). Qed.



Lemma get_sentence_by_id_absent sentence_id s :
  sentence_id ∉ sent_id <$> sentences s → get_sentence_by_id sentence_id s = None.
Proof.
  intros Habs. unfold get_sentence_by_id.
  rewrite filter_none_of; [done|].
  apply Forall_forall. intros r Hr Heq. apply Habs. rewrite <- Heq.
  by apply list_elem_of_fmap_2.
Qed.

(** C9: every call of [search] returns normally with a list and leaves
    the store alone. A raw hit with a valid ordinal and a score at least
    the threshold whose ordinal maps to a sentence id is returned, with
    its score, when the store resolves the id, and contributes nothing
    when the store does not; a sentence id absent from the sentence table
    does not resolve. Every returned entry comes from such a resolved
    hit, and a call that finds its index in memory and gets raw hits from
    it changes nothing, the log included: a dropped hit leaves no trace. *)
Theorem search_drops_unresolved_hits (w : World) (x : vector) (k : Z)
    (threshold : Q) :
  let out := search x k threshold w in
  let hits := raw_hits x k out.2 in
  ∃ results,
    out.1 = Returned results ∧ db out.2 = db w
    ∧ (∀ i score idx sentence_id,
         hits !! i = Some (score, idx) → idx ≠ -1 → (threshold <= score)%Q →
         id_mapping out.2 !! idx = Some sentence_id →
         match get_sentence_by_id sentence_id (db w) with
         | Some sentence_info =>
             {| res_info := sentence_info; similarity_score := score;
                rank := Z.of_nat i + 1 |} ∈ results
         | None => ∀ r, r ∈ results → rank r ≠ Z.of_nat i + 1
         end)
    ∧ (∀ sentence_id, sentence_id ∉ sent_id <$> sentences (db w) →
         get_sentence_by_id sentence_id (db w) = None)
    ∧ (∀ r, r ∈ results →
         ∃ i idx sentence_id,
           hits !! i = Some (similarity_score r, idx) ∧ idx ≠ -1
           ∧ (threshold <= similarity_score r)%Q
           ∧ id_mapping out.2 !! idx = Some sentence_id
           ∧ get_sentence_by_id sentence_id (db w) = Some (res_info r))
    ∧ (∀ ix raw, index w = Some ix → index_search ix x k = Returned raw →
         out.2 = w).
Proof.
  simpl. exists (search_results x k threshold w).
  destruct (search_returns_results_from w x k threshold) as (Hout & Hres & Hdb).
  simpl in Hout, Hres, Hdb. rewrite Hdb in Hres.
  split_and!; [done|done| | | |];
    [| | |intros ix raw Hix Hraw; by rewrite (search_with_index w ix), Hraw].
  - intros i score idx sentence_id Hi Hidx Hthr Hmap.
    destruct (get_sentence_by_id sentence_id (db w)) as [info|] eqn:Hinfo.
    + rewrite Hres. apply results_elem. exists i, (score, idx).
      split; [done|]. apply hit_result_Some.
      split_and!; [done..|]. by exists sentence_id, info.
    + intros r Hr Hrank. rewrite Hres in Hr.
      apply results_elem in Hr as (j & [score' idx'] & Hj & Hr).
      apply hit_result_Some in Hr as (_ & _ & sid & info & Hmap' & Hinfo' & ->).
      simpl in Hrank. assert (j = i) as Hji by lia.
      rewrite Hji in Hj. pose proof (eq_trans (eq_sym Hj) Hi) as Heq.
      injection Heq as -> ->. congruence.
  - intros sentence_id. apply get_sentence_by_id_absent.
  - intros r Hr. rewrite Hres in Hr.
    apply results_elem in Hr as (j & [score idx] & Hj & Hr).
    apply hit_result_Some in Hr as (? & ? & sid & info & ? & ? & ->).
    simpl. by exists j, idx, sid.
Qed.

End search_claims.

Section rank_claims.

Context `{FaissLib}.

(** C2 (amended): for every call of [search] whose raw hits come in
    descending score order, the returned entries are in descending score
    order, and the rank of an entry is one plus the position of its hit
    in the raw list, given before any filtering: ranks are strictly
    increasing, lie between 1 and the number of raw hits, and name the
    raw hit that carries the entry's score. They are exactly
    1, 2, ..., len(results) whenever no dropped hit stands before a kept
    one. *)
Theorem search_ranks_are_raw_positions (w : World) (x : vector) (k : Z)
    (threshold : Q) :
  let out := search x k threshold w in
  let hits := raw_hits x k out.2 in
  let results := search_results x k threshold w in
  descending hits.*1 →
  out.1 = Returned results
  ∧ descending (similarity_score <$> results)
  ∧ StronglySorted Z.lt (rank <$> results)
  ∧ (∀ r, r ∈ results →
       1 ≤ rank r ≤ Z.of_nat (length hits)
       ∧ ∃ idx, hits !! Z.to_nat (rank r - 1) = Some (similarity_score r, idx))
  ∧ ((∀ a b h h', (a < b)%nat → hits !! a = Some h → hits !! b = Some h' →
        hit_kept (db w) (id_mapping out.2) threshold h' →
        hit_kept (db w) (id_mapping out.2) threshold h) →
     rank <$> results = seqZ 1 (Z.of_nat (length results))).
Proof.
  intros out hits results Hdesc. subst out hits results.
  destruct (search_returns_results_from w x k threshold) as (Hout & Hres & Hdb).
  simpl in Hout, Hres, Hdb. rewrite Hdb in Hres. rewrite Hres.
  split_and!.
  - by rewrite Hout, Hres.
  - by apply (results_from_descending _ _ _ 0).
  - apply (results_from_ranks_increase _ _ _ 0).
  - intros r (j & [score idx] & Hj & Hr)%results_elem.
    apply hit_result_rank in Hr as [Hrank Hscore]. simpl in Hrank, Hscore.
    pose proof (lookup_lt_Some _ _ _ Hj) as Hlt.
    split; [lia|]. exists idx.
    replace (Z.to_nat (rank r - 1)) with j by lia. by rewrite Hscore.
  - intros Hprefix.
    exact (results_from_ranks_consecutive _ _ _ 0 _ Hprefix).
Qed.

(** For every index in memory and every query of another length than the
    index width, the wrapper's assertion fails inside [try]. *)
Lemma index_search_mismatch ix x k :
  length x ≠ ix_d ix → index_search ix x k = Raised AssertionError.
Proof. intros Hlen. unfold index_search. by rewrite decide_False. Qed.

(** C4 (amended): for every index in memory of width D and every query
    vector whose length differs from D, [search] does not fail: the
    handler of the [try] block logs one generic search-failed record and
    [search] returns the empty list, the same value a query without
    matches yields; nothing else changes. *)
Theorem search_dimension_mismatch_returns_empty (w : World) (ix : FaissIndex)
    (x : vector) (k : Z) (threshold : Q) :
  index w = Some ix → length x ≠ ix_d ix →
  search x k threshold w
  = (Returned [], add_log [error_search_failed AssertionError] w).
Proof.
  intros Hix Hlen.
  by rewrite (search_with_index w ix), index_search_mismatch.
Qed.

End rank_claims.

Section search_examples.

Local Existing Instance exact_faiss.

(** C2, as stated, fails: sentence 2 is gone from the store, the raw hits
    are in descending order, and the two entries returned carry the
    ranks 1 and 3. *)
Lemma search_ranks_have_gaps :
  let results := search_results query10 3 0%Q world3_drift in
  (raw_hits query10 3 world3_drift).*1 = [1%Q; (2#4)%Q; (1#4)%Q]
  ∧ info_id ∘ res_info <$> results = [1; 3]
  ∧ rank <$> results = [1; 3]
  ∧ rank <$> results ≠ seqZ 1 (Z.of_nat (length results)).
Proof. split_and!; [by vm_compute..|]. by vm_compute. Qed.

Lemma search_ranks_are_raw_positions_witness :
  let w := world3_drift in
  let out := search query10 3 0%Q w in
  let hits := raw_hits query10 3 out.2 in
  let results := search_results query10 3 0%Q w in
  out.1 = Returned results
  ∧ descending (similarity_score <$> results)
  ∧ StronglySorted Z.lt (rank <$> results)
  ∧ (∀ r, r ∈ results →
       1 ≤ rank r ≤ Z.of_nat (length hits)
       ∧ ∃ idx, hits !! Z.to_nat (rank r - 1) = Some (similarity_score r, idx))
  ∧ ((∀ a b h h', (a < b)%nat → hits !! a = Some h → hits !! b = Some h' →
        hit_kept (db w) (id_mapping out.2) 0%Q h' →
        hit_kept (db w) (id_mapping out.2) 0%Q h) →
     rank <$> results = seqZ 1 (Z.of_nat (length results))).
Proof.
  apply (search_ranks_are_raw_positions world3_drift query10 3 0%Q).
  apply (bool_decide_unpack _). by vm_compute.
Defined.

(** C4, as stated, fails: the index of [world3] has width 2, the query
    has three items, and [search] returns the empty list, as it does for
    a query of width 2 that nothing matches. *)
Lemma search_mismatch_is_empty_result :
  let x := [1%Q; 0%Q; 0%Q] in
  (ix_d <$> index world3) = Some 2%nat ∧ length x = 3%nat
  ∧ (search x 3 0%Q world3).1 = Returned []
  ∧ (search query10 3 2%Q world3).1 = Returned []
  ∧ (search x 3 0%Q world3).1 = (search query10 3 2%Q world3).1.
Proof. split_and!; by vm_compute. Qed.

Lemma search_dimension_mismatch_returns_empty_witness :
  ∃ ix, index world3 = Some ix ∧
    search [1%Q; 0%Q; 0%Q] 3 0%Q world3
    = (Returned [], add_log [error_search_failed AssertionError] world3).
Proof.
  eexists. split; [reflexivity|].
  eapply (search_dimension_mismatch_returns_empty world3);
    [reflexivity|by vm_compute].
Defined.

End search_examples.

Section build_facts.

Context `{FaissLib}.

Local Abbreviation embeddings_data w :=
  (omap embedding_of_row (merge_sort by_id (filter has_embedding (sentences (db w))))).



Lemma vstack_Returned rows matrix :
  vstack rows = Returned matrix →
  matrix = rows ∧ rows ≠ [] ∧ Forall (λ r, length r = shape1 rows) rows.
Proof.
  unfold vstack. destruct rows as [|r rows]; [done|].
  destruct (decide _) as [Hall|]; [|done]. by intros [= <-].
Qed.

Lemma vstack_uniform rows D :
  rows ≠ [] → Forall (λ r, length r = D) rows → vstack rows = Returned rows.
Proof.
  intros Hne Hall. destruct rows as [|r rows]; [done|]. unfold vstack.
  rewrite decide_True; [done|].
  pose proof (Forall_inv Hall) as Hr. simpl in Hr.
  eapply Forall_impl; [exact Hall|]. simpl. intros; congruence.
Qed.

Lemma established_dimension_data s D :
  established_dimension s D ↔
  omap embedding_of_row (merge_sort by_id (filter has_embedding (sentences s))) ≠ []
  ∧ Forall (λ v, length v = D)
      (omap embedding_of_row
         (merge_sort by_id (filter has_embedding (sentences s)))).*2.
Proof.
  unfold established_dimension. split.
  - intros [(r & Hin & [blob Hblob]) Hall]. split.
    + intros Hnil.
      assert ((sent_id r, blob) ∈ omap embedding_of_row
                (merge_sort by_id (filter has_embedding (sentences s)))) as Hmem
        by (apply get_all_embeddings_elem; eauto).
      rewrite Hnil in Hmem. by apply elem_of_nil in Hmem.
    + apply Forall_fmap, Forall_forall. intros [sid v] Hmem.
      apply get_all_embeddings_elem in Hmem as (r' & Hin' & _ & Hemb). simpl.
      by eapply Hall.
  - intros [Hne Hall]. split.
    + destruct (omap _ _) as [|[sid v] l] eqn:Hdata; [done|].
      assert ((sid, v) ∈ omap embedding_of_row
                (merge_sort by_id (filter has_embedding (sentences s)))) as Hmem
        by (rewrite Hdata; left).
      apply get_all_embeddings_elem in Hmem as (r & Hin & _ & Hemb).
      exists r. split; [done|by eexists].
    + intros r blob Hin Hemb.
      assert ((sent_id r, blob) ∈ omap embedding_of_row
                (merge_sort by_id (filter has_embedding (sentences s)))) as Hmem
        by (apply get_all_embeddings_elem; eauto).
      rewrite Forall_fmap, Forall_forall in Hall. by apply (Hall _ Hmem).
Qed.

Local Opaque vstack shape1 ivf_nlist enumerate_mapping.

(** [build_index], case by case. *)
Lemma build_index_cases index_type w :
  let logged := add_log [info_build_started] w in
  match embeddings_data w with
  | [] =>
      build_index index_type w
      = (Returned false, add_log [warning_no_embeddings] logged)
  | _ :: _ =>
      match vstack (embeddings_data w).*2 with
      | Raised e =>
          build_index index_type w
          = (Returned false, add_log [error_build_failed e] logged)
      | Returned matrix =>
          let d := shape1 matrix in
          let shaped :=
            add_log [info_build_shape (length (embeddings_data w).*2) d]
              (set_dimension (Some d) logged) in
          if decide (index_type = "flat") then
            build_index index_type w
            = (Returned true,
               built_world (new_IndexFlatIP d) matrix (embeddings_data w).*1 shaped)
          else if decide (index_type = "ivf") then
            let ix := new_IndexIVFFlat d (ivf_nlist (length (embeddings_data w).*2)) in
            match faiss_train ix matrix with
            | Returned _ =>
                build_index index_type w
                = (Returned true,
                   built_world ix matrix (embeddings_data w).*1 shaped)
            | Raised e =>
                build_index index_type w
                = (Returned false,
                   add_log [error_build_failed e] (set_index (Some ix) shaped))
            end
          else
            build_index index_type w
            = (Returned false, add_log [error_build_failed ValueError] shaped)
      end
  end.
Proof.
  unfold build_index. py_unfold. unfold get_all_embeddings. simpl.
  destruct (embeddings_data w) as [|p data] eqn:Hdata; simpl.
  { by destruct w. }
  match goal with
  | |- context [vstack ?rows] => destruct (vstack rows) as [matrix|e]
  end; simpl; [|by destruct w].
  destruct (decide (index_type = "flat")) as [Hflat|Hflat]; simpl; [by destruct w|].
  destruct (decide (index_type = "ivf")) as [Hivf|Hivf]; simpl; [|by destruct w].
  match goal with
  | |- context [faiss_train ?ix matrix] =>
      destruct (faiss_train ix matrix) as [[]|err]
  end; simpl; by destruct w.
Qed.

Local Transparent vstack shape1 ivf_nlist enumerate_mapping.

Lemma build_index_returns index_type w :
  ∃ b, (build_index index_type w).1 = Returned b.
Proof.
  pose proof (build_index_cases index_type w) as Hc. simpl in Hc.
  destruct (embeddings_data w); [rewrite Hc; by eexists|].
  destruct (vstack _); [|rewrite Hc; by eexists].
  destruct (decide (index_type = "flat")); [rewrite Hc; by eexists|].
  destruct (decide (index_type = "ivf")); [|rewrite Hc; by eexists].
  destruct (faiss_train _ _); rewrite Hc; by eexists.
Qed.

(** A failed [build_index] has written no file and set no mapping; it has
    left the index attribute alone unless it failed in the training step
    of an ivf build. *)
Lemma build_index_failed index_type w :
  let out := build_index index_type w in
  out.1 = Returned false →
  db out.2 = db w
  ∧ index_file out.2 = index_file w ∧ mapping_file out.2 = mapping_file w
  ∧ id_mapping out.2 = id_mapping w
  ∧ ((index_type ≠ "ivf" ∨ ¬ ∃ D, established_dimension (db w) D) →
     index out.2 = index w).
Proof.
  simpl. pose proof (build_index_cases index_type w) as Hc. simpl in Hc.
  destruct (embeddings_data w) as [|p data] eqn:Hdata; [by rewrite Hc|].
  destruct (vstack _) as [matrix|e] eqn:Hstack; [|by rewrite Hc].
  destruct (decide (index_type = "flat")) as [Hflat|Hflat]; [by rewrite Hc|].
  destruct (decide (index_type = "ivf")) as [Hivf|Hivf]; [|by rewrite Hc].
  destruct (faiss_train _ _) as [[]|e]; rewrite Hc; [done|].
  intros _. simpl. split_and!; try done.
  intros [Hne|Hne]; [done|]. exfalso. apply Hne.
  apply vstack_Returned in Hstack as (_ & _ & Hall).
  eexists. apply established_dimension_data. rewrite Hdata. split; [done|exact Hall].
Qed.

(** The index object an ivf build creates over a store of dimension [D]. *)
Lemma build_index_ivf_index w D :
  established_dimension (db w) D →
  ∃ ix, index (build_index "ivf" w).2 = Some ix
      ∧ ix_class ix
        = IndexIVFFlat (ivf_nlist (stat_embeddings (get_stats (db w))))
      ∧ ix_d ix = D.
Proof.
  intros [Hne Hall]%established_dimension_data.
  pose proof (build_index_cases "ivf" w) as Hc. simpl in Hc.
  assert (length (embeddings_data w).*2 = stat_embeddings (get_stats (db w))) as Hlen
    by (by rewrite length_fmap, get_all_embeddings_length).
  assert (shape1 (embeddings_data w).*2 = D) as Hshape.
  { destruct (embeddings_data w) as [|p data]; [done|].
    apply Forall_inv in Hall. exact Hall. }
  rewrite (vstack_uniform _ D) in Hc;
    [|by destruct (embeddings_data w)|exact Hall].
  destruct (embeddings_data w) as [|p data] eqn:Hdata; [done|].
  rewrite Hlen, Hshape in Hc.
  destruct (faiss_train _ _) as [[]|e]; rewrite Hc; simpl; by eexists.
Qed.

End build_facts.

Ltac solve_established :=
  split;
  [ eexists; split; [left|]; by eexists
  | let r := fresh "r" in
    let blob := fresh "blob" in
    let Hin := fresh "Hin" in
    let Hblob := fresh "Hblob" in
    intros r blob Hin Hblob; vm_compute in Hin;
    repeat (apply elem_of_cons in Hin as [->|Hin]);
    try (simpl in Hblob; by injection Hblob as <-);
    by apply elem_of_nil in Hin ].

Section build_claims.

Context `{FaissLib}.

(** C3 (amended): for every ivf build over a store whose N >= 1 embeddings
    share one dimension, the index object is created with
    min(100, floor(N / 10)) cluster lists and no lower bound is applied:
    the count is at least 1 exactly when N >= 10, and is 0 when N < 10. *)
Theorem ivf_list_count_has_no_minimum (w : World) (D : nat) :
  established_dimension (db w) D →
  let N := stat_embeddings (get_stats (db w)) in
  let nlist := 100 `min` (Z.of_nat N `div` 10) in
  (∃ ix, index (build_index "ivf" w).2 = Some ix
       ∧ ix_class ix = IndexIVFFlat nlist ∧ ix_d ix = D)
  ∧ 0 ≤ nlist ≤ 100
  ∧ (1 ≤ nlist ↔ (10 ≤ N)%nat)
  ∧ ((N < 10)%nat → nlist = 0).
Proof.
  intros Hdim N nlist. split; [exact (build_index_ivf_index w D Hdim)|].
  subst nlist. generalize N. clear. intros N.
  pose proof (Z.div_mod (Z.of_nat N) 10 ltac:(lia)) as Hdm.
  pose proof (Z.mod_pos_bound (Z.of_nat N) 10 ltac:(lia)) as Hmod.
  split_and!; [lia|lia| |lia].
  split; lia.
Qed.



Lemma rebuild_index_clears index_type w :
  rebuild_index index_type w = build_index index_type (cleared_world w).
Proof.
  unfold rebuild_index, cleared_world. py_unfold. simpl.
  destruct w as [s ix m d fi fm l]. simpl.
  destruct fi, fm; reflexivity.
Qed.

(** C10 (amended): [rebuild_index] first logs, unsets the index, empties
    the id mapping and removes both artifact files, and only then runs
    [build_index]. Whenever the rebuild returns False, both files are
    absent and the id mapping is empty; the in-memory index is unset
    whenever the index type is not ivf or the store has no embeddings of
    one common dimension, that is, whenever the build fails before the ivf
    training step. *)
Theorem rebuild_index_failure_leaves_nothing (index_type : string) (w : World) :
  let out := rebuild_index index_type w in
  out.1 = Returned false →
  rebuild_index index_type w = build_index index_type (cleared_world w)
  ∧ index (cleared_world w) = None ∧ id_mapping (cleared_world w) = ∅
  ∧ index_file (cleared_world w) = absent ∧ mapping_file (cleared_world w) = absent
  ∧ index_file out.2 = absent ∧ mapping_file out.2 = absent
  ∧ id_mapping out.2 = ∅
  ∧ ((index_type ≠ "ivf" ∨ ¬ ∃ D, established_dimension (db w) D) →
     index out.2 = None).
Proof.
  intros out Hfail. subst out. rewrite rebuild_index_clears in Hfail |- *.
  destruct (build_index_failed index_type (cleared_world w) Hfail)
    as (_ & Hfi & Hfm & Hmap & Hindex).
  split_and!; done.
Qed.

End build_claims.

Section build_examples.

(** C3, as stated, fails: over the five embeddings of [store5] the ivf
    build creates an index with 0 cluster lists, not 1. *)
Lemma ivf_build_with_zero_lists :
  let out := build_index (H := exact_faiss) "ivf" (new_engine store5 absent absent) in
  established_dimension store5 1
  ∧ stat_embeddings (get_stats store5) = 5%nat
  ∧ ix_class <$> index out.2 = Some (IndexIVFFlat 0)
  ∧ ivf_nlist 5 = 0
  ∧ ivf_nlist 5 ≠ 1 `max` (100 `min` (5 `div` 10)).
Proof. split_and!; [solve_established|by vm_compute..]. Qed.

Lemma ivf_list_count_has_no_minimum_witness :
  let w := new_engine store5 absent absent in
  let N := stat_embeddings (get_stats (db w)) in
  let nlist := 100 `min` (Z.of_nat N `div` 10) in
  (∃ ix, index (build_index (H := exact_faiss) "ivf" w).2 = Some ix
       ∧ ix_class ix = IndexIVFFlat nlist ∧ ix_d ix = 1%nat)
  ∧ 0 ≤ nlist ≤ 100
  ∧ (1 ≤ nlist ↔ (10 ≤ N)%nat)
  ∧ ((N < 10)%nat → nlist = 0).
Proof.
  apply (ivf_list_count_has_no_minimum (H := exact_faiss)
           (new_engine store5 absent absent) 1).
  solve_established.
Defined.


(** C10, as stated, fails: with a library whose training step raises, the
    ivf rebuild over the ten embeddings of [world10] returns False and
    leaves the newly created, empty ivf index in memory. *)
Lemma rebuild_index_failure_keeps_new_index :
  let out := rebuild_index (H := untrainable_faiss) "ivf" world10 in
  out.1 = Returned false
  ∧ index out.2 = Some (new_IndexIVFFlat 1 1)
  ∧ index out.2 ≠ None
  ∧ index_file out.2 = absent ∧ mapping_file out.2 = absent.
Proof. split_and!; by vm_compute. Qed.

Lemma rebuild_index_failure_leaves_nothing_witness :
  let out := rebuild_index (H := exact_faiss) "flat" world3_cleared in
  is_Some (index world3_cleared)
  ∧ out.1 = Returned false
  ∧ index_file out.2 = absent ∧ mapping_file out.2 = absent
  ∧ id_mapping out.2 = ∅
  ∧ index out.2 = None.
Proof.
  destruct (rebuild_index_failure_leaves_nothing (H := exact_faiss) "flat"
              world3_cleared eq_refl)
    as (_ & _ & _ & _ & _ & Hfi & Hfm & Hmap & Hix).
  split_and!; [by eexists|reflexivity|exact Hfi|exact Hfm|exact Hmap|].
  apply Hix. left. discriminate.
Defined.

End build_examples.

(** * Further properties of the store *)

Section lookup_facts.

Lemma filter_unique_key {A K} `{EqDecision K} (key : A → K) (l : list A) x :
  NoDup (key <$> l) → x ∈ l → filter (λ y, key y = key x) l = [x].
Proof.
  induction l as [|y l IH]; intros Hnd Hin; [by apply elem_of_nil in Hin|].
  rewrite fmap_cons in Hnd. apply NoDup_cons in Hnd as [Hy Hnd].
  rewrite filter_cons. destruct (decide (key y = key x)) as [Hk|Hk].
  - assert (x = y) as ->.
    { apply elem_of_cons in Hin as [->|Hin]; [done|].
      exfalso. apply Hy. rewrite Hk. by apply list_elem_of_fmap_2. }
    f_equal. apply filter_none_of, Forall_forall. intros z Hz Hkz.
    apply Hy. rewrite <- Hkz. by apply list_elem_of_fmap_2.
  - apply elem_of_cons in Hin as [->|Hin]; [done|]. by apply IH.
Qed.

Lemma get_sentence_by_id_Some_inv sentence_id s info :
  get_sentence_by_id sentence_id s = Some info →
  ∃ r d, r ∈ sentences s ∧ d ∈ documents s ∧ sent_id r = sentence_id
       ∧ doc_id d = sent_document_id r ∧ info = info_of r d.
Proof.
  unfold get_sentence_by_id. intros Hhead%head_Some_elem_of.
  apply list_elem_of_bind in Hhead as (r & Hd & [Hr Hin]%list_elem_of_filter).
  apply list_elem_of_bind in Hd as (d & Hinfo & [Hdid Hdin]%list_elem_of_filter).
  apply list_elem_of_singleton in Hinfo. by exists r, d.
Qed.

Lemma get_sentence_by_id_found s r d :
  store_wf s → r ∈ sentences s → d ∈ documents s →
  doc_id d = sent_document_id r →
  get_sentence_by_id (sent_id r) s = Some (info_of r d).
Proof.
  intros Hwf Hr Hd Hdid. unfold get_sentence_by_id.
  rewrite (filter_unique_key sent_id (sentences s) r (wf_sent_ids _ Hwf) Hr).
  simpl. rewrite <- Hdid.
  rewrite (filter_unique_key doc_id (documents s) d (wf_doc_ids _ Hwf) Hd).
  reflexivity.
Qed.

(** X1: on every store that satisfies its schema, [get_sentence_by_id]
    finds a sentence id exactly when a sentence row carries it and the
    document that row names is stored, and then returns the fields of
    these two rows. *)
Theorem get_sentence_by_id_joins (s : Store) (sentence_id : Z) (info : SentenceInfo) :
  store_wf s →
  get_sentence_by_id sentence_id s = Some info ↔
  ∃ r d, r ∈ sentences s ∧ d ∈ documents s ∧ sent_id r = sentence_id
       ∧ doc_id d = sent_document_id r ∧ info = info_of r d.
Proof.
  intros Hwf. split; [apply get_sentence_by_id_Some_inv|].
  intros (r & d & Hr & Hd & <- & Hdid & ->).
  by apply get_sentence_by_id_found.
Qed.

End lookup_facts.

Section ingestion_facts.

Lemma get_sentence_by_id_joins_witness :
  get_sentence_by_id 2 store3
  = Some {| info_id := 2; info_text := "beta"; info_index := 1;
            info_filename := "a.txt"; info_file_path := "/docs/a.txt" |}
  ↔ ∃ r d, r ∈ sentences store3 ∧ d ∈ documents store3 ∧ sent_id r = 2
         ∧ doc_id d = sent_document_id r
         ∧ {| info_id := 2; info_text := "beta"; info_index := 1;
              info_filename := "a.txt"; info_file_path := "/docs/a.txt" |}
           = info_of r d.
Proof. exact (get_sentence_by_id_joins store3 2 _ store3_wf). Defined.

Lemma add_document_returns filename file_path s :
  store_wf s →
  ∃ d, (add_document filename file_path s).1 = Returned (doc_id d)
     ∧ d ∈ documents (add_document filename file_path s).2
     ∧ doc_file_path d = file_path
     ∧ (Forall (λ d', doc_file_path d' ≠ file_path) (documents s) →
        doc_filename d = filename ∧ doc_id d = documents_seq s + 1).
Proof.
  intros Hwf.
  destruct (list_find (λ d, doc_file_path d = file_path) (documents s))
    as [[i d]|] eqn:Hfind.
  - rewrite (add_document_existing _ _ _ _ _ Hfind). simpl.
    apply list_find_Some in Hfind as (Hlook & Hpath & _).
    apply list_elem_of_lookup_2 in Hlook.
    exists d. split_and!; try done.
    intros Hnone. rewrite Forall_forall in Hnone. by destruct (Hnone d Hlook).
  - rewrite (add_document_fresh _ _ _ Hfind). simpl.
    exists {| doc_id := documents_seq s + 1; doc_filename := filename;
              doc_file_path := file_path |}.
    split_and!; [done| |done|done].
    apply elem_of_app. right. left.
Qed.

(** X2: on every store that satisfies its schema, a sentence inserted
    under the id that [add_document] returned for a path is found again by
    [get_sentence_by_id] under the next sentence id, with its text and
    position unchanged and with that path; the file name is the one given
    when the path was new to the store. *)
Theorem ingested_sentence_hydrates (s : Store) (filename file_path text : string)
    (position : Z) (v : vector) :
  store_wf s →
  ∃ doc fname,
    (add_document filename file_path s).1 = Returned doc
    ∧ get_sentence_by_id (sentences_seq s + 1)
        (add_sentence_embedding doc text position v
           (add_document filename file_path s).2).2
      = Some {| info_id := sentences_seq s + 1; info_text := text;
                info_index := position; info_filename := fname;
                info_file_path := file_path |}
    ∧ (Forall (λ d, doc_file_path d ≠ file_path) (documents s) → fname = filename).
Proof.
  intros Hwf.
  destruct (add_document_returns filename file_path s Hwf)
    as (d & Hret & Hd & Hpath & Hnew).
  exists (doc_id d), (doc_filename d). split; [done|]. split; [|by intros [? _]%Hnew].
  set (s1 := (add_document filename file_path s).2) in *.
  assert (sentences_seq s1 = sentences_seq s) as Hseq.
  { unfold s1, add_document. by destruct (list_find _ _) as [[??]|]. }
  pose proof (add_document_wf filename file_path s Hwf) as Hwf1. fold s1 in Hwf1.
  pose proof (add_sentence_embedding_wf (doc_id d) text position v s1 Hwf1) as Hwf2.
  set (r := {| sent_id := sentences_seq s1 + 1; sent_document_id := doc_id d;
               sent_text := text; sent_index := position;
               sent_embedding := Some (tobytes v) |}).
  assert (r ∈ sentences (add_sentence_embedding (doc_id d) text position v s1).2)
    as Hr by (simpl; apply elem_of_app; right; left).
  pose proof (get_sentence_by_id_found _ r d Hwf2 Hr Hd eq_refl) as Hfound.
  rewrite <- Hseq. etrans; [exact Hfound|].
  unfold info_of. simpl. by rewrite Hpath.
Qed.

Lemma ingested_sentence_hydrates_witness :
  ∃ doc fname,
    (add_document "renamed.txt" "/docs/a.txt" store3).1 = Returned doc
    ∧ get_sentence_by_id (sentences_seq store3 + 1)
        (add_sentence_embedding doc "delta" 3 [1%Q; 1%Q]
           (add_document "renamed.txt" "/docs/a.txt" store3).2).2
      = Some {| info_id := sentences_seq store3 + 1; info_text := "delta";
                info_index := 3; info_filename := fname;
                info_file_path := "/docs/a.txt" |}
    ∧ (Forall (λ d, doc_file_path d ≠ "/docs/a.txt") (documents store3) →
       fname = "renamed.txt").
Proof.
  exact (ingested_sentence_hydrates store3 "renamed.txt" "/docs/a.txt" "delta" 3
           [1%Q; 1%Q] store3_wf).
Defined.

(** X3: the foreign key is not enforced. On every store that satisfies its
    schema, [add_sentence_embedding] under a document id that no document
    row carries still returns normally, and the sentence is listed by
    [get_all_embeddings] and counted by [get_stats], but
    [get_sentence_by_id] does not find it. *)
Theorem orphan_sentence_is_stored_but_not_found (s : Store) (document_id : Z)
    (text : string) (position : Z) (v : vector) :
  store_wf s →
  document_id ∉ doc_id <$> documents s →
  let out := add_sentence_embedding document_id text position v s in
  out.1 = Returned tt
  ∧ (∃ l, (get_all_embeddings out.2).1 = Returned l ∧ (sentences_seq s + 1, v) ∈ l)
  ∧ stat_embeddings (get_stats out.2) = S (stat_embeddings (get_stats s))
  ∧ get_sentence_by_id (sentences_seq s + 1) out.2 = None.
Proof.
  intros Hwf Horphan out. subst out. split_and!.
  - done.
  - eexists. split; [reflexivity|].
    apply (get_all_embeddings_elem
             (add_sentence_embedding document_id text position v s).2).
    eexists. split; [simpl; apply elem_of_app; right; left|done].
  - simpl. rewrite filter_app, length_app, filter_cons_True by (by eexists).
    simpl. lia.
  - destruct (get_sentence_by_id _ _) as [info|] eqn:Hinfo; [|done].
    apply get_sentence_by_id_Some_inv in Hinfo as (r & d & Hr & Hd & Hid & Hdid & _).
    simpl in Hr, Hd. apply elem_of_app in Hr as [Hr|Hr].
    + pose proof (wf_sent_seq _ Hwf) as Hseq. rewrite Forall_forall in Hseq.
      specialize (Hseq r Hr). simpl in Hseq. lia.
    + apply list_elem_of_singleton in Hr. subst r. simpl in Hdid.
      exfalso. apply Horphan. rewrite <- Hdid. by apply list_elem_of_fmap_2.
Qed.

Lemma orphan_sentence_is_stored_but_not_found_witness :
  let out := add_sentence_embedding 7 "stray" 0 [1%Q; 1%Q] store3 in
  out.1 = Returned tt
  ∧ (∃ l, (get_all_embeddings out.2).1 = Returned l
        ∧ (sentences_seq store3 + 1, [1%Q; 1%Q]) ∈ l)
  ∧ stat_embeddings (get_stats out.2) = S (stat_embeddings (get_stats store3))
  ∧ get_sentence_by_id (sentences_seq store3 + 1) out.2 = None.
Proof.
  apply (orphan_sentence_is_stored_but_not_found store3 7 "stray" 0 [1%Q; 1%Q]
           store3_wf).
  apply (bool_decide_unpack _). by vm_compute.
Defined.

End ingestion_facts.

Section histories.

Lemma add_document_seq filename file_path s :
  sentences_seq (add_document filename file_path s).2 = sentences_seq s
  ∧ documents_seq s ≤ documents_seq (add_document filename file_path s).2
  ∧ sentences (add_document filename file_path s).2 = sentences s.
Proof.
  unfold add_document.
  destruct (list_find _ _) as [[??]|]; simpl; split_and!; try done; lia.
Qed.

Lemma apply_op_keeps op s :
  store_wf s →
  store_wf (apply_op op s)
  ∧ sentences_seq s ≤ sentences_seq (apply_op op s)
  ∧ documents_seq s ≤ documents_seq (apply_op op s).
Proof.
  intros Hwf. destruct op as [filename file_path|document_id text position v|]; simpl.
  - split; [by apply add_document_wf|].
    destruct (add_document_seq filename file_path s) as (-> & ? & _). lia.
  - split; [by apply add_sentence_embedding_wf|]. simpl. lia.
  - split; [by apply clear_database_wf|]. simpl. lia.
Qed.

Lemma apply_ops_keeps ops s :
  store_wf s →
  store_wf (apply_ops ops s)
  ∧ sentences_seq s ≤ sentences_seq (apply_ops ops s)
  ∧ documents_seq s ≤ documents_seq (apply_ops ops s).
Proof.
  revert s. induction ops as [|op ops IH]; intros s Hwf; [by split_and!|].
  destruct (apply_op_keeps op s Hwf) as (Hwf1 & Hs1 & Hd1).
  destruct (IH (apply_op op s) Hwf1) as (Hwf2 & Hs2 & Hd2).
  simpl. split_and!; [done|lia..].
Qed.

(** X4: identifiers are never reused. From a store that satisfies its
    schema, after any sequence of [add_document], [add_sentence_embedding]
    and [clear_database] calls the schema still holds, and the id the next
    [add_sentence_embedding] assigns, as well as the id [add_document]
    returns for a path new to the store, is greater than every id the
    store held before the sequence, cleared rows included. *)
Theorem ids_never_reused (s : Store) (ops : list StoreOp) :
  store_wf s →
  let s' := apply_ops ops s in
  store_wf s'
  ∧ (∀ document_id text position v,
       ∃ new, sentences (add_sentence_embedding document_id text position v s').2
              = sentences s' ++ [new]
            ∧ ∀ r, r ∈ sentences s → sent_id r < sent_id new)
  ∧ (∀ filename file_path,
       Forall (λ d, doc_file_path d ≠ file_path) (documents s') →
       ∃ id, (add_document filename file_path s').1 = Returned id
           ∧ ∀ d, d ∈ documents s → doc_id d < id).
Proof.
  intros Hwf s'. destruct (apply_ops_keeps ops s Hwf) as (Hwf' & Hs & Hd).
  fold s' in Hwf', Hs, Hd. split_and!; [done| |].
  - intros document_id text position v. eexists. split; [reflexivity|].
    intros r Hr. simpl.
    pose proof (wf_sent_seq _ Hwf) as Hseq. rewrite Forall_forall in Hseq.
    specialize (Hseq r Hr). simpl in Hseq. lia.
  - intros filename file_path Hfresh.
    apply (list_find_None (λ d, doc_file_path d = file_path)) in Hfresh.
    rewrite (add_document_fresh _ _ _ Hfresh). eexists. split; [reflexivity|].
    intros d Hdin.
    pose proof (wf_doc_seq _ Hwf) as Hseq. rewrite Forall_forall in Hseq.
    specialize (Hseq d Hdin). simpl in Hseq. lia.
Qed.

Lemma ids_never_reused_witness :
  let s' := apply_ops [OpClear; OpAddDocument "z.txt" "/docs/z.txt"] store3 in
  store_wf s'
  ∧ (∀ document_id text position v,
       ∃ new, sentences (add_sentence_embedding document_id text position v s').2
              = sentences s' ++ [new]
            ∧ ∀ r, r ∈ sentences store3 → sent_id r < sent_id new)
  ∧ (∀ filename file_path,
       Forall (λ d, doc_file_path d ≠ file_path) (documents s') →
       ∃ id, (add_document filename file_path s').1 = Returned id
           ∧ ∀ d, d ∈ documents store3 → doc_id d < id).
Proof.
  exact (ids_never_reused store3 [OpClear; OpAddDocument "z.txt" "/docs/z.txt"]
           store3_wf).
Defined.

End histories.

Section document_queries.

Global Instance by_sentence_index_total : Total by_sentence_index.
Proof. intros a b. unfold by_sentence_index. lia. Qed.

Global Instance by_sentence_index_trans : Transitive by_sentence_index.
Proof. intros a b c. unfold by_sentence_index. lia. Qed.

(** X5: [get_document_sentences] returns one entry for each sentence row
    of the document and for no other row, in ascending order of sentence
    position. *)
Theorem get_document_sentences_ordered (s : Store) (document_id : Z) :
  let l := get_document_sentences document_id s in
  StronglySorted Z.le (ds_index <$> l)
  ∧ (∀ x, x ∈ l ↔
       ∃ r, r ∈ sentences s ∧ sent_document_id r = document_id
          ∧ x = {| ds_id := sent_id r; ds_text := sent_text r;
                   ds_index := sent_index r |})
  ∧ length l
    = length (filter (λ r, sent_document_id r = document_id) (sentences s)).
Proof.
  simpl. unfold get_document_sentences. split_and!.
  - rewrite <- list_fmap_compose.
    eapply StronglySorted_fmap;
      [|apply (StronglySorted_merge_sort by_sentence_index)].
    by intros a b.
  - intros x. rewrite list_elem_of_fmap. split.
    + intros (r & -> & Hr). rewrite merge_sort_Permutation in Hr.
      apply list_elem_of_filter in Hr as [Hdoc Hr]. by exists r.
    + intros (r & Hr & Hdoc & ->). exists r. split; [done|].
      rewrite merge_sort_Permutation. by apply list_elem_of_filter.
  - by rewrite length_fmap, merge_sort_Permutation.
Qed.

Lemma joined_rows_ids (docs : list DocumentRow) (rows : list SentenceRow) :
  NoDup (doc_id <$> docs) →
  Forall (λ r, sent_document_id r ∈ doc_id <$> docs) rows →
  (λ t : Z * Z * string * Z * string, t.1.1.1.1)
    <$> (r ← rows;
         d ← filter (λ d, doc_id d = sent_document_id r) docs;
         [(sent_id r, sent_index r, sent_text r, sent_document_id r,
           doc_filename d)])
  = sent_id <$> rows.
Proof.
  intros Hnd. induction 1 as [|r rows Hr _ IH]; [done|].
  apply list_elem_of_fmap in Hr as (d & Hd & Hdin).
  csimpl. rewrite fmap_app, IH. rewrite Hd.
  by rewrite (filter_unique_key doc_id docs d Hnd Hdin).
Qed.

(** X6: on every store that satisfies its schema and in which every
    sentence names a stored document, [get_sentence_by_index] at offset i
    returns the sentence whose id stands at position i of
    [get_all_embeddings], the position a built index uses as ordinal, and
    returns nothing from the number of embeddings on; a negative offset
    reads as 0. *)
Theorem get_sentence_by_index_matches_ordinals (s : Store) (index : Z) :
  store_wf s → references_resolve s →
  ∃ l, (get_all_embeddings s).1 = Returned l
     ∧ (λ t, t.1.1.1.1) <$> get_sentence_by_index index s
       = l.*1 !! Z.to_nat index.
Proof.
  intros Hwf Href. eexists. split; [reflexivity|].
  unfold get_sentence_by_index.
  rewrite omap_embedding_ids by apply embedded_rows_Forall.
  rewrite <- (joined_rows_ids (documents s)); [| apply (wf_doc_ids _ Hwf) |].
  - generalize (Z.to_nat index). intros n.
    match goal with |- context [drop n ?l] => generalize l end.
    intros l. revert n. induction l as [|x l IH]; intros [|n]; try done.
    simpl. apply IH.
  - rewrite embedded_rows_perm. unfold references_resolve in Href.
    rewrite Forall_forall in Href |- *.
    intros r [_ Hr]%list_elem_of_filter. by apply Href.
Qed.

Lemma store3_references : references_resolve store3.
Proof. apply (bool_decide_unpack _). by vm_compute. Qed.

Lemma get_sentence_by_index_matches_ordinals_witness :
  ∃ l, (get_all_embeddings store3).1 = Returned l
     ∧ (λ t, t.1.1.1.1) <$> get_sentence_by_index 1 store3
       = l.*1 !! Z.to_nat 1.
Proof.
  exact (get_sentence_by_index_matches_ordinals store3 1 store3_wf store3_references).
Defined.

End document_queries.

(** * Further properties of the search engine *)

Section mapping_facts.

Lemma list_to_map_enumerate_from (n : nat) (ids : list Z) (z : Z) :
  (list_to_map (imap (λ i x, (Z.of_nat (n + i), x)) ids) : gmap Z Z) !! z
  = if decide (Z.of_nat n ≤ z) then ids !! Z.to_nat (z - Z.of_nat n) else None.
Proof.
  revert n. induction ids as [|x ids IH]; intros n.
  - simpl. rewrite lookup_empty. by destruct (decide _).
  - rewrite imap_cons. simpl. rewrite Nat.add_0_r.
    assert (imap ((λ i y, (Z.of_nat (n + i), y)) ∘ S) ids
            = imap (λ i y, (Z.of_nat (S n + i), y)) ids) as ->
      by (apply imap_ext; intros i y _; simpl; do 2 f_equal; lia).
    destruct (decide (z = Z.of_nat n)) as [->|Hne].
    + rewrite lookup_insert_eq, decide_True by lia.
      by replace (Z.of_nat n - Z.of_nat n) with 0 by lia.
    + rewrite lookup_insert_ne by done. rewrite IH.
      destruct (decide (Z.of_nat n ≤ z)) as [Hle|Hle].
      * rewrite decide_True by lia.
        replace (Z.to_nat (z - Z.of_nat n)) with (S (Z.to_nat (z - Z.of_nat (S n))))
          by lia.
        done.
      * by rewrite decide_False by lia.
Qed.

(** The mapping a build creates sends ordinal i to the i-th sentence id
    and knows no other key. *)
Lemma enumerate_mapping_lookup (ids : list Z) (z : Z) :
  enumerate_mapping ids !! z
  = if decide (0 ≤ z) then ids !! Z.to_nat z else None.
Proof.
  unfold enumerate_mapping.
  pose proof (list_to_map_enumerate_from 0 ids z) as Hlook. simpl in Hlook.
  rewrite Z.sub_0_r in Hlook. exact Hlook.
Qed.


End mapping_facts.

Section build_success.

Context `{FaissLib}.

Lemma established_dimension_embeddings s D :
  established_dimension s D →
  embeddings_of s ≠ []
  ∧ vstack (embeddings_of s).*2 = Returned (embeddings_of s).*2
  ∧ shape1 (embeddings_of s).*2 = D
  ∧ length (embeddings_of s).*2 = stat_embeddings (get_stats s).
Proof.
  intros [Hne Hall]%established_dimension_data.
  change (omap embedding_of_row
            (merge_sort by_id (filter has_embedding (sentences s))))
    with (embeddings_of s) in Hne, Hall.
  split_and!.
  - done.
  - apply (vstack_uniform _ D); [|done]. by destruct (embeddings_of s).
  - destruct (embeddings_of s) as [|p data]; [done|].
    apply Forall_inv in Hall. exact Hall.
  - rewrite length_fmap. apply get_all_embeddings_length.
Qed.

Lemma build_index_true index_type w D :
  established_dimension (db w) D → index_ready index_type (db w) →
  build_index index_type w
  = (Returned true,
     built_world
       (if decide (index_type = "flat") then new_IndexFlatIP D
        else new_IndexIVFFlat D (ivf_nlist (stat_embeddings (get_stats (db w)))))
       (embeddings_of (db w)).*2 (embeddings_of (db w)).*1
       (add_log [info_build_shape (stat_embeddings (get_stats (db w))) D]
          (set_dimension (Some D) (add_log [info_build_started] w)))).
Proof.
  intros (Hne & Hstack & Hshape & Hlen)%established_dimension_embeddings Hready.
  pose proof (build_index_cases index_type w) as Hc. simpl in Hc.
  change (omap embedding_of_row
            (merge_sort by_id (filter has_embedding (sentences (db w)))))
    with (embeddings_of (db w)) in Hc.
  unfold index_ready in Hready. rewrite Hstack, Hshape, Hlen in Hc.
  rewrite Hshape, Hlen in Hready.
  destruct (embeddings_of (db w)) as [|p data] eqn:Hdata; [done|].
  destruct (decide (index_type = "flat")) as [Hflat|Hflat]; [done|].
  destruct Hready as [?|[Hivf Htrain]]; [done|].
  rewrite decide_True in Hc by done. by rewrite Htrain in Hc.
Qed.


Lemma build_index_true_inv index_type w :
  (build_index index_type w).1 = Returned true →
  (∃ D, established_dimension (db w) D) ∧ index_ready index_type (db w).
Proof.
  pose proof (build_index_cases index_type w) as Hc. simpl in Hc.
  change (omap embedding_of_row
            (merge_sort by_id (filter has_embedding (sentences (db w)))))
    with (embeddings_of (db w)) in Hc.
  unfold index_ready.
  destruct (embeddings_of (db w)) as [|p data] eqn:Hdata; [by rewrite Hc|].
  destruct (vstack _) as [matrix|e] eqn:Hstack; [|by rewrite Hc].
  apply vstack_Returned in Hstack as (-> & _ & Hall).
  assert (∃ D, established_dimension (db w) D) as Hest.
  { eexists. apply established_dimension_data.
    change (omap embedding_of_row
              (merge_sort by_id (filter has_embedding (sentences (db w)))))
      with (embeddings_of (db w)).
    rewrite Hdata. split; [done|exact Hall]. }
  destruct (decide (index_type = "flat")) as [Hflat|Hflat]; [by intros _; split; [|left]|].
  destruct (decide (index_type = "ivf")) as [Hivf|Hivf]; [|by rewrite Hc].
  destruct (faiss_train _ _) as [[]|e] eqn:Htrain; rewrite Hc; [|done].
  intros _. split; [done|]. right. by split.
Qed.

(** X8: [build_index] returns True exactly when the stored embeddings are
    at least one and share one dimension and the index type is flat, or
    is ivf with a training step that returns; in every other case it
    returns False. *)
Theorem build_index_succeeds_iff (w : World) (index_type : string) :
  ((build_index index_type w).1 = Returned true
   ↔ (∃ D, established_dimension (db w) D) ∧ index_ready index_type (db w))
  ∧ ((build_index index_type w).1 = Returned false
     ∨ (build_index index_type w).1 = Returned true).
Proof.
  split.
  - split; [apply build_index_true_inv|].
    intros [[D Hdim] Hready]. by rewrite (build_index_true index_type w D).
  - destruct (build_index_returns index_type w) as [[] Hb]; auto.
Qed.

End build_success.

Section persistence.

Context `{FaissLib}.


Lemma search_in_memory w ix x k threshold :
  index w = Some ix →
  search_results x k threshold w
  = omap (hit_result (db w) (id_mapping w) threshold) (enumerate (raw_hits x k w)).
Proof.
  intros Hix. unfold search_results, raw_hits.
  rewrite (search_with_index w ix) by done. rewrite Hix.
  destruct (index_search ix x k) as [hits|e]; simpl; [|done].
  apply search_loop_enumerate.
Qed.



(** X10: how [load_index] fails. When one of the two files is missing it
    returns False after a warning and leaves every attribute as it was, an
    index already in memory included. When both files exist and one of
    them cannot be read it returns False and resets the engine: no index,
    an empty id mapping, no dimension, also when the index file itself was
    read before the mapping failed. It never writes a file or the
    store. *)
Theorem load_index_failure_modes (w : World) :
  (exists_ (index_file w) && exists_ (mapping_file w) = false →
   load_index w = (Returned false, add_log [warning_index_files_missing] w))
  ∧ (exists_ (index_file w) && exists_ (mapping_file w) = true →
     artifacts_loadable w = false →
     (load_index w).1 = Returned false
     ∧ index (load_index w).2 = None
     ∧ id_mapping (load_index w).2 = ∅
     ∧ dimension (load_index w).2 = None)
  ∧ db (load_index w).2 = db w
  ∧ index_file (load_index w).2 = index_file w
  ∧ mapping_file (load_index w).2 = mapping_file w.
Proof.
  unfold artifacts_loadable, load_index. py_unfold. simpl.
  destruct w as [s ix m d fi fm l]. simpl.
  destruct fi, fm; simpl; split_and!; try done; intros; try discriminate;
    split_and!; done.
Qed.

Lemma omap_sublist {A B} (f g : A → option B) (l : list A) :
  (∀ x y, f x = Some y → g x = Some y) → omap f l `sublist_of` omap g l.
Proof.
  intros Hfg. induction l as [|x l IH]; [constructor|]. csimpl.
  destruct (f x) as [y|] eqn:Hf.
  - rewrite (Hfg x y Hf). by apply sublist_skip.
  - destruct (g x); [by apply sublist_cons|done].
Qed.

Lemma search_state_threshold_free w x k t1 t2 :
  (search x k t1 w).2 = (search x k t2 w).2.
Proof.
  assert (∀ w ix, index w = Some ix →
            (search x k t1 w).2 = (search x k t2 w).2) as Hready.
  { clear w. intros w ix Hix. rewrite !(search_with_index w ix) by done.
    by destruct (index_search ix x k). }
  destruct (index w) as [ix|] eqn:Hix; [by eapply Hready|].
  destruct (artifacts_loadable w) eqn:Hart.
  - unfold artifacts_loadable in Hart.
    destruct (index_file w) as [| |ix] eqn:Hi; try discriminate.
    destruct (mapping_file w) as [| |data] eqn:Hm; try discriminate.
    rewrite !(search_lazy_load w ix data) by done.
    by apply (Hready _ ix).
  - destruct (search_unavailable w x k t1 Hix Hart) as (w1 & Hl1 & ->).
    destruct (search_unavailable w x k t2 Hix Hart) as (w2 & Hl2 & ->).
    rewrite Hl1 in Hl2. by injection Hl2 as <-.
Qed.

(** X11: threshold monotonicity. For one query, [k] and engine state, the
    list returned under the higher of two thresholds is a sublist of the
    list returned under the lower one: the same entries, with the same
    scores and ranks, in the same order, some left out. *)
Theorem search_threshold_monotone (w : World) (x : vector) (k : Z) (t1 t2 : Q) :
  (t1 <= t2)%Q →
  search_results x k t2 w `sublist_of` search_results x k t1 w.
Proof.
  intros Hle.
  destruct (search_returns_results_from w x k t1) as (_ & -> & _).
  destruct (search_returns_results_from w x k t2) as (_ & -> & _).
  rewrite (search_state_threshold_free w x k t2 t1).
  apply omap_sublist. intros [i [score idx]] r.
  rewrite !hit_result_Some. intros (? & Hthr & Hrest).
  split_and!; [done| |done]. by apply (Qle_trans _ t2).
Qed.

End persistence.

Section after_build.

Context `{FaissLib}.

Lemma embedded_id_resolves s sentence_id :
  store_wf s → references_resolve s →
  sentence_id ∈ (embeddings_of s).*1 →
  ∃ info, get_sentence_by_id sentence_id s = Some info ∧ info_id info = sentence_id.
Proof.
  intros Hwf Href Hin.
  apply list_elem_of_fmap in Hin as ([sid v] & -> & Hin).
  apply get_all_embeddings_elem in Hin as (r & Hr & <- & _).
  unfold references_resolve in Href. rewrite Forall_forall in Href.
  pose proof (Href r Hr) as Hdoc.
  apply list_elem_of_fmap in Hdoc as (d & Hdid & Hd).
  exists (info_of r d). split; [|done].
  by apply get_sentence_by_id_found.
Qed.

(** X12: no drift right after a build. Over every store that satisfies its
    schema, in which every sentence names a stored document and the
    embeddings share one dimension, a build that goes through maps each
    ordinal to a sentence id that [get_sentence_by_id] resolves; a
    following [search] returns an entry, with the hit's score and raw
    position, for every raw hit whose ordinal is below the number of
    embeddings and whose score is at least the threshold. *)
Theorem fresh_build_has_no_drift (w : World) (index_type : string) (D : nat) :
  store_wf (db w) → references_resolve (db w) →
  established_dimension (db w) D → index_ready index_type (db w) →
  let w' := (build_index index_type w).2 in
  let ids := (embeddings_of (db w)).*1 in
  (∀ i sentence_id, ids !! i = Some sentence_id →
     id_mapping w' !! Z.of_nat i = Some sentence_id
     ∧ ∃ info, get_sentence_by_id sentence_id (db w') = Some info
             ∧ info_id info = sentence_id)
  ∧ (∀ x k threshold j score idx,
       raw_hits x k w' !! j = Some (score, idx) →
       0 ≤ idx < Z.of_nat (stat_embeddings (get_stats (db w))) →
       (threshold <= score)%Q →
       ∃ r, r ∈ search_results x k threshold w'
          ∧ rank r = Z.of_nat j + 1 ∧ similarity_score r = score
          ∧ ids !! Z.to_nat idx = Some (info_id (res_info r))).
Proof.
  intros Hwf Href Hdim Hready w' ids.
  assert (∀ i sentence_id, ids !! i = Some sentence_id →
     id_mapping w' !! Z.of_nat i = Some sentence_id
     ∧ ∃ info, get_sentence_by_id sentence_id (db w') = Some info
             ∧ info_id info = sentence_id) as Hmap.
  { intros i sid Hi. subst w'.
    rewrite (build_index_true index_type w D Hdim Hready). simpl. split.
    - rewrite enumerate_mapping_lookup, decide_True by lia.
      by rewrite Nat2Z.id.
    - apply embedded_id_resolves; [done..|]. by eapply list_elem_of_lookup_2. }
  split; [exact Hmap|].
  intros x k threshold j score idx Hj Hidx Hthr.
  apply established_dimension_embeddings in Hdim as (_ & _ & _ & Hlen).
  assert (is_Some (ids !! Z.to_nat idx)) as [sid Hsid].
  { apply lookup_lt_is_Some. subst ids.
    rewrite length_fmap in Hlen. rewrite length_fmap. lia. }
  destruct (Hmap _ _ Hsid) as (Hlook & info & Hinfo & Hid).
  rewrite Z2Nat.id in Hlook by lia.
  assert (is_Some (index w')) as [ix Hix].
  { unfold raw_hits in Hj. destruct (index w'); [by eexists|].
    by rewrite lookup_nil in Hj. }
  exists {| res_info := info; similarity_score := score; rank := Z.of_nat j + 1 |}.
  split_and!; [|done|done|simpl; by rewrite Hid].
  rewrite (search_in_memory w' ix) by done.
  apply results_elem. exists j, (score, idx). split; [done|].
  apply hit_result_Some. split_and!; [unfold no_result; lia|done|].
  by exists sid, info.
Qed.


End after_build.

Section incremental.

Context `{FaissAdd}.



(** X15: [add_vectors] never loads an index: without an index in memory
    it returns False at once. When the matrix has another width than the
    index, or the library rejects it, it returns False as well. In each
    of these cases the engine attributes, the store and both files are
    exactly as before; only a log record is added. *)
Theorem add_vectors_failure_changes_nothing (ss : Session)
    (sentence_ids : list Z) (embeddings : Matrix) :
  let out := add_vectors sentence_ids embeddings ss in
  (index ss.1 = None →
   out = (Returned false, (ss.1, ss.2 ++ [error_index_uninitialised])))
  ∧ (∀ ix e, index ss.1 = Some ix →
       index_add_checked ix embeddings = Raised e →
       out = (Returned false, (ss.1, ss.2 ++ [error_add_failed e])))
  ∧ (∀ ix, index ss.1 = Some ix → cols embeddings ≠ ix_d ix →
       index_add_checked ix embeddings = Raised AssertionError).
Proof.
  destruct ss as [w vlog]. simpl. split_and!.
  - intros Hix. unfold add_vectors, vectors_logging. py_unfold. simpl.
    by rewrite Hix.
  - intros ix e Hix Hfail. unfold add_vectors, vectors_logging. py_unfold. simpl.
    rewrite Hix. simpl. by rewrite Hfail.
  - intros ix _ Hcols. unfold index_add_checked. by rewrite decide_False.
Qed.

End incremental.

Section clearing.

Context `{FaissLib}.

Lemma search_over_empty_store w x k threshold :
  sentences (db w) = [] → (search x k threshold w).1 = Returned [].
Proof.
  intros Hnone.
  destruct (search_returns_results_from w x k threshold) as (Hout & Hres & Hdb).
  simpl in Hout, Hres, Hdb. rewrite Hout, Hres, Hdb. f_equal.
  apply (results_from_none _ _ _ 0), Forall_forall.
  intros [score idx] _ [r Hr].
  apply hit_result_Some in Hr as (_ & _ & sid & info & _ & Hinfo & _).
  unfold get_sentence_by_id in Hinfo. by rewrite Hnone in Hinfo.
Qed.

(** X16: the [/clear] route empties both tables and removes both artifact
    files but leaves the attributes of the engine object alone, so an
    index that was in memory stays there. Afterwards all three counts are
    zero, [build_index] returns False, [load_index] returns False, and
    every [search] through the engine returns the empty list, whatever the
    stale index yields. *)
Theorem clear_data_leaves_index_in_memory (w : World) :
  let w' := (clear_data w).2 in
  (clear_data w).1 = Returned true
  ∧ index w' = index w ∧ id_mapping w' = id_mapping w ∧ dimension w' = dimension w
  ∧ index_file w' = absent ∧ mapping_file w' = absent
  ∧ get_stats (db w')
    = {| stat_documents := 0; stat_sentences := 0; stat_embeddings := 0 |}
  ∧ (∀ index_type, (build_index index_type w').1 = Returned false)
  ∧ (load_index w').1 = Returned false
  ∧ (∀ x k threshold, (search x k threshold w').1 = Returned []).
Proof.
  intros w'. subst w'.
  assert (clear_data w
          = (Returned true,
             set_mapping_file absent
               (set_index_file absent (set_db (clear_database (db w)).2 w))))
    as ->.
  { unfold clear_data. py_unfold. simpl.
    destruct w as [s ix m d fi fm l]. simpl. by destruct fi, fm. }
  cbn [fst snd]. split_and!; try done.
  intros x k threshold. by apply search_over_empty_store.
Qed.

End clearing.

(** * Properties of the ingestion loop *)

Section ingestion_loop.

Context `{Host}.

Lemma item_rows_cons document_id first_id x items :
  item_rows document_id first_id (x :: items)
  = {| sent_id := first_id; sent_document_id := document_id;
       sent_text := x.1.2; sent_index := Z.of_nat x.1.1;
       sent_embedding := Some (tobytes x.2) |}
    :: item_rows document_id (first_id + 1) items.
Proof.
  unfold item_rows. rewrite imap_cons. f_equal.
  - f_equal. lia.
  - apply imap_ext. intros n y _. simpl. f_equal. lia.
Qed.

Lemma item_rows_app document_id first_id a b :
  item_rows document_id first_id (a ++ b)
  = item_rows document_id first_id a
    ++ item_rows document_id (first_id + Z.of_nat (length a)) b.
Proof.
  revert first_id. induction a as [|x a IH]; intros first_id.
  - simpl. f_equal. lia.
  - rewrite <- app_comm_cons, !item_rows_cons, IH. simpl. do 3 f_equal. lia.
Qed.

Lemma item_rows_length document_id first_id items :
  length (item_rows document_id first_id items) = length items.
Proof. apply length_imap. Qed.

Lemma append_items_nil document_id s : append_items document_id [] s = s.
Proof.
  destruct s as [docs sents dseq sseq]. unfold append_items. simpl.
  rewrite app_nil_r. f_equal. lia.
Qed.

Lemma append_items_app document_id a b s :
  append_items document_id b (append_items document_id a s)
  = append_items document_id (a ++ b) s.
Proof.
  unfold append_items. simpl. f_equal.
  - rewrite item_rows_app, <- app_assoc. do 3 f_equal. lia.
  - rewrite length_app. lia.
Qed.

Lemma add_sentence_embedding_appends document_id text (position : nat) v s :
  add_sentence_embedding document_id text (Z.of_nat position) v s
  = (Returned tt, append_items document_id [(position, text, v)] s).
Proof.
  unfold add_sentence_embedding, append_items, item_rows. simpl.
  replace (sentences_seq s + 1 + Z.of_nat 0) with (sentences_seq s + 1) by lia.
  reflexivity.
Qed.

Lemma store_pairs_run document_id i j pairs processed_count s :
  store_pairs document_id i j pairs processed_count s
  = (Returned (processed_count + length pairs)%nat,
     append_items document_id
       (imap (λ n (p : string * vector), ((i + (j + n))%nat, p.1, p.2)) pairs) s).
Proof.
  revert j processed_count s.
  induction pairs as [|[sentence embedding] pairs IH]; intros j c s.
  - simpl. rewrite append_items_nil. unfold mret, M_ret, ret. do 2 f_equal. lia.
  - cbn [store_pairs]. unfold mbind, M_bind, bind.
    rewrite (add_sentence_embedding_appends document_id sentence (i + j) embedding s).
    cbn iota beta. rewrite IH, append_items_app. f_equal.
    + f_equal. simpl. lia.
    + f_equal. rewrite imap_cons. simpl. rewrite Nat.add_0_r. f_equal.
      apply imap_ext. intros n p _. simpl. do 2 f_equal. lia.
Qed.

End ingestion_loop.

Section ingestion_run.

Context `{Host}.

Lemma process_batch_run document_id sentences batch_size i processed_count st :
  ∃ records,
    process_batch document_id sentences batch_size i processed_count st
    = (Returned (processed_count + length (batch_items sentences batch_size i))%nat,
       (append_items document_id (batch_items sentences batch_size i) st.1,
        st.2 ++ records)).
Proof.
  destruct st as [s lg]. unfold process_batch, batch_items, on_store,
    processor_logging. py_unfold. simpl.
  destruct (encode _) as [embeddings|e]; simpl.
  - exists []. rewrite store_pairs_run, app_nil_r, length_imap. done.
  - eexists [_]. rewrite append_items_nil, Nat.add_0_r. done.
Qed.

Lemma for_each_batches_run document_id sentences batch_size starts processed_count st :
  ∃ records,
    for_each starts (process_batch document_id sentences batch_size) processed_count st
    = (Returned (processed_count
                 + length (starts ≫= batch_items sentences batch_size))%nat,
       (append_items document_id (starts ≫= batch_items sentences batch_size) st.1,
        st.2 ++ records)).
Proof.
  revert processed_count st.
  induction starts as [|i starts IH]; intros c st.
  - exists []. destruct st as [s lg]. simpl.
    rewrite append_items_nil, app_nil_r, Nat.add_0_r. done.
  - destruct (process_batch_run document_id sentences batch_size i c st)
      as [records1 Hbatch].
    cbn [for_each]. unfold mbind at 1, M_bind, bind. rewrite Hbatch.
    destruct (IH (c + length (batch_items sentences batch_size i))%nat
                (append_items document_id (batch_items sentences batch_size i) st.1,
                 st.2 ++ records1)) as [records2 Hrest].
    rewrite Hrest. exists (records1 ++ records2). cbn [fst snd].
    rewrite append_items_app, <- app_assoc. csimpl. rewrite length_app.
    do 2 f_equal. lia.
Qed.

Lemma add_document_total filename file_path s :
  ∃ doc, (add_document filename file_path s).1 = Returned doc.
Proof.
  unfold add_document. destruct (list_find _ _) as [[??]|]; by eexists.
Qed.

(** A run of [process_file] with a batch size other than 0: the document
    is recorded, the ingested items are appended under its id, and their
    number is returned. *)
Lemma process_file_run file_path batch_size st :
  batch_size ≠ 0 →
  let first := add_document (basename file_path) file_path st.1 in
  let items := ingested_items (extract_sentences_from_file file_path) batch_size in
  ∃ doc records,
    first.1 = Returned doc
    ∧ process_file file_path batch_size st
      = (Returned (length items),
         (append_items doc items first.2, st.2 ++ records)).
Proof.
  intros Hstep first items. subst first items.
  destruct (add_document_total (basename file_path) file_path st.1) as [doc Hdoc].
  exists doc. destruct st as [s lg]. simpl in Hdoc |- *.
  unfold process_file, ingested_items, on_store, processor_logging. py_unfold.
  cbn [fst snd].
  destruct (add_document (basename file_path) file_path s) as [r s1] eqn:Hadd.
  simpl in Hdoc. subst r. cbn [fst snd].
  destruct (extract_sentences_from_file file_path) as [|t sentences] eqn:Hsents.
  - cbn [fst snd length]. unfold range_step. rewrite decide_False by done.
    assert ((if decide (batch_size < 0) then Returned []
             else Returned ((λ q, (q * Z.to_nat batch_size)%nat)
                    <$> seq 0 ((0 + Z.to_nat batch_size - 1)
                               `div` Z.to_nat batch_size)%nat))
            = (Returned [] : result (list nat))) as ->.
    { destruct (decide (batch_size < 0)); [done|].
      by rewrite Nat.div_small by lia. }
    eexists [_; _]. split; [done|].
    cbn [mbind list_bind length]. by rewrite append_items_nil, <- app_assoc.
  - unfold range_step. rewrite decide_False by done.
    destruct (decide (batch_size < 0)) as [Hneg|Hpos]; cbn [fst snd].
    + eexists [_; _; _]. split; [done|].
      cbn [mbind list_bind length for_each]. unfold mret, M_ret, ret.
      cbn [fst snd]. by rewrite append_items_nil, <- !app_assoc.
    + match goal with
      | |- context [for_each ?starts ?body ?c ?st] =>
          destruct (for_each_batches_run doc (t :: sentences) batch_size starts c st)
            as [records Hloop]
      end.
      rewrite Hloop. cbn [fst snd].
      eexists ([_; _] ++ records ++ [_]). split; [done|].
      by rewrite <- !app_assoc.
Qed.

End ingestion_run.

Section ingested_facts.

Context `{Host}.

Implicit Types (sentences : list string) (items : list (nat * string * vector)).

Lemma batch_items_elem sentences batch_size i x :
  x ∈ batch_items sentences batch_size i →
  sentences !! x.1.1 = Some x.1.2
  ∧ (i ≤ x.1.1 < i + Z.to_nat batch_size)%nat
  ∧ ∃ embeddings,
      encode (take (Z.to_nat batch_size) (drop i sentences)) = Returned embeddings.
Proof.
  unfold batch_items. destruct (encode _) as [embeddings|e] eqn:Henc;
    [|by intros ?%elem_of_nil].
  intros (j & p & -> & Hj)%elem_of_lookup_imap. simpl.
  apply lookup_zip_with_Some in Hj as (t & v & -> & Ht & _). simpl.
  apply lookup_take_Some in Ht as [Ht Hlt]. rewrite lookup_drop in Ht.
  split_and!; [done|lia|lia|by eexists].
Qed.

Lemma imap_positions {A} (l : list (string * A)) i :
  (λ x : nat * string * A, x.1.1)
    <$> imap (λ j (p : string * A), ((i + j)%nat, p.1, p.2)) l
  = seq i (length l).
Proof.
  revert i. induction l as [|p l IH]; intros i; [done|].
  rewrite imap_cons. csimpl. rewrite Nat.add_0_r. f_equal.
  rewrite <- IH. f_equal. apply imap_ext. intros j q _. simpl. do 2 f_equal. lia.
Qed.

Lemma imap_texts {A} (l : list (string * A)) i :
  (λ x : nat * string * A, x.1.2)
    <$> imap (λ j (p : string * A), ((i + j)%nat, p.1, p.2)) l
  = l.*1.
Proof.
  revert i. induction l as [|p l IH]; intros i; [done|].
  rewrite imap_cons. csimpl. f_equal.
  rewrite <- (IH (S i)). f_equal. apply imap_ext. intros j q _. simpl.
  do 2 f_equal. lia.
Qed.

Lemma batch_items_positions sentences batch_size i :
  (λ x, x.1.1) <$> batch_items sentences batch_size i
  = seq i (length (batch_items sentences batch_size i)).
Proof.
  unfold batch_items. destruct (encode _) as [embeddings|e]; [|done].
  by rewrite imap_positions, length_imap.
Qed.

Lemma seq_sorted i n : StronglySorted lt (seq i n).
Proof.
  revert i. induction n as [|n IH]; intros i; [constructor|].
  simpl. constructor; [apply IH|].
  apply Forall_forall. intros j [? _]%elem_of_seq. lia.
Qed.

(** The items of the batches that start at [a * b], [(a + 1) * b], ...:
    their positions increase strictly and none is below [a * b]. *)
Lemma batches_positions_sorted sentences batch_size a n :
  0 < batch_size →
  let items := ((λ q, (q * Z.to_nat batch_size)%nat) <$> seq a n)
                 ≫= batch_items sentences batch_size in
  StronglySorted lt ((λ x, x.1.1) <$> items)
  ∧ Forall (λ x, (a * Z.to_nat batch_size ≤ x.1.1)%nat) items.
Proof.
  intros Hpos. revert a. induction n as [|n IH]; intros a.
  - split; constructor.
  - destruct (IH (S a)) as [Hsorted Hbound]. simpl in Hsorted, Hbound |- *.
    split.
    + rewrite fmap_app. apply StronglySorted_app. split_and!; [|
        rewrite batch_items_positions; apply seq_sorted | exact Hsorted].
      intros p1 p2 (x1 & -> & Hx1)%list_elem_of_fmap (x2 & -> & Hx2)%list_elem_of_fmap.
      apply batch_items_elem in Hx1 as (_ & Hx1 & _).
      rewrite Forall_forall in Hbound. specialize (Hbound x2 Hx2). simpl in Hbound.
      lia.
    + apply Forall_app. split.
      * apply Forall_forall. intros x (_ & Hx & _)%batch_items_elem. lia.
      * eapply Forall_impl; [exact Hbound|]. simpl. intros; lia.
Qed.

Lemma ingested_items_elem sentences batch_size x :
  x ∈ ingested_items sentences batch_size →
  0 < batch_size
  ∧ ∃ q, x ∈ batch_items sentences batch_size (q * Z.to_nat batch_size).
Proof.
  unfold ingested_items, range_step.
  destruct (decide (batch_size = 0)); [by intros ?%elem_of_nil|].
  destruct (decide (batch_size < 0)); [by intros ?%elem_of_nil|].
  intros (i & Hx & (q & -> & _)%list_elem_of_fmap)%list_elem_of_bind.
  split; [lia|by exists q].
Qed.

(** Every ingested item stands at its true position in the sentence list,
    and positions increase strictly. *)
Lemma ingested_items_positions sentences batch_size :
  Forall (λ x, sentences !! x.1.1 = Some x.1.2) (ingested_items sentences batch_size)
  ∧ StronglySorted lt ((λ x, x.1.1) <$> ingested_items sentences batch_size).
Proof.
  split.
  - apply Forall_forall. intros x (_ & q & Hx)%ingested_items_elem.
    by apply batch_items_elem in Hx as (? & _).
  - unfold ingested_items, range_step.
    destruct (decide (batch_size = 0)); [constructor|].
    destruct (decide (batch_size < 0)); [constructor|].
    apply (batches_positions_sorted sentences batch_size 0). lia.
Qed.

Lemma sorted_positions_length (l : list nat) a n :
  StronglySorted lt l → Forall (λ p, (a ≤ p < a + n)%nat) l → (length l ≤ n)%nat.
Proof.
  revert a n. induction l as [|p l IH]; intros a n Hsorted Hall; [simpl; lia|].
  apply StronglySorted_inv in Hsorted as [Hsorted Hp].
  apply Forall_cons in Hall as [Hpa Hall].
  destruct n as [|n]; [lia|]. simpl.
  apply le_n_S, (IH (S a) n); [done|].
  rewrite Forall_forall in Hp, Hall |- *. intros q Hq.
  specialize (Hp q Hq). specialize (Hall q Hq). lia.
Qed.

Lemma ingested_items_length sentences batch_size :
  (length (ingested_items sentences batch_size) ≤ length sentences)%nat.
Proof.
  destruct (ingested_items_positions sentences batch_size) as [Hat Hsorted].
  rewrite <- (length_fmap (λ x : nat * string * vector, x.1.1)).
  apply (sorted_positions_length _ 0); [done|].
  apply Forall_fmap, Forall_forall. intros x Hx.
  rewrite Forall_forall in Hat. specialize (Hat x Hx). simpl.
  apply lookup_lt_Some in Hat. lia.
Qed.

Lemma batch_items_complete sentences batch_size i :
  encodes_all sentences batch_size →
  (λ x, x.1.2) <$> batch_items sentences batch_size i
  = take (Z.to_nat batch_size) (drop i sentences).
Proof.
  intros Hall. destruct (Hall i) as (embeddings & Henc & Hlen).
  unfold batch_items. rewrite Henc, imap_texts.
  apply fst_zip. lia.
Qed.

(** With an encoder that returns a row for every text, the batches that
    start at [a * b], [(a + 1) * b], ... hold the texts from [a * b] on,
    each under its position. *)
Lemma batches_complete sentences batch_size a n :
  encodes_all sentences batch_size →
  let b := Z.to_nat batch_size in
  let items := ((λ q, (q * b)%nat) <$> seq a n) ≫= batch_items sentences batch_size in
  (λ x, x.1.2) <$> items = take (n * b) (drop (a * b) sentences)
  ∧ (λ x, x.1.1) <$> items
    = seq (a * b) (length (take (n * b) (drop (a * b) sentences))).
Proof.
  intros Hall b. revert a. induction n as [|n IH]; intros a; [done|].
  destruct (IH (S a)) as [Htexts Hpositions]. cbv zeta in Htexts, Hpositions.
  set (tail := ((λ q, (q * b)%nat) <$> seq (S a) n) ≫= batch_items sentences batch_size)
    in Htexts, Hpositions.
  change ((λ x, x.1.2) <$> (batch_items sentences batch_size (a * b) ++ tail)
          = take (b + n * b) (drop (a * b) sentences)
          ∧ (λ x, x.1.1) <$> (batch_items sentences batch_size (a * b) ++ tail)
            = seq (a * b) (length (take (b + n * b) (drop (a * b) sentences)))).
  assert (drop (S a * b) sentences = drop b (drop (a * b) sentences)) as Hdrop.
  { rewrite drop_drop. f_equal. lia. }
  rewrite Hdrop in Htexts, Hpositions.
  replace (S a * b)%nat with (a * b + b)%nat in Hpositions by lia.
  set (rest := drop (a * b)%nat sentences) in *.
  rewrite !fmap_app, Htexts, Hpositions, batch_items_positions.
  rewrite <- (length_fmap (λ x : nat * string * vector, x.1.2)).
  rewrite (batch_items_complete _ _ _ Hall). fold b rest.
  split; [apply take_take_drop|].
  rewrite !length_take, length_drop.
  destruct (decide (b ≤ length rest)%nat) as [Hfull|Hshort].
  - replace (b `min` length rest)%nat with b by lia.
    replace ((b + n * b) `min` length rest)%nat
      with (b + (n * b) `min` (length rest - b))%nat by lia.
    by rewrite seq_app.
  - replace ((n * b) `min` (length rest - b))%nat with 0%nat by lia.
    replace ((b + n * b) `min` length rest)%nat with (b `min` length rest)%nat by lia.
    by rewrite app_nil_r.
Qed.

Lemma batches_cover (n b : nat) : (0 < b)%nat → (n ≤ (n + b - 1) `div` b * b)%nat.
Proof.
  intros Hb.
  pose proof (Nat.div_mod_eq (n + b - 1) b) as Hdiv.
  pose proof (Nat.mod_upper_bound (n + b - 1) b) as Hmod.
  nia.
Qed.

(** With an encoder that returns a row for every text and a positive
    batch size, the run ingests every sentence once, under its position. *)
Lemma ingested_items_complete sentences batch_size :
  0 < batch_size →
  encodes_all sentences batch_size →
  (λ x, x.1.2) <$> ingested_items sentences batch_size = sentences
  ∧ (λ x, x.1.1) <$> ingested_items sentences batch_size = seq 0 (length sentences).
Proof.
  intros Hpos Hall. unfold ingested_items, range_step.
  rewrite decide_False by lia. rewrite decide_False by lia.
  destruct (batches_complete sentences batch_size 0
              ((length sentences + Z.to_nat batch_size - 1) `div` Z.to_nat batch_size)
              Hall) as [Htexts Hpositions].
  rewrite Htexts, Hpositions. simpl. rewrite drop_0.
  rewrite take_ge by (apply batches_cover; lia). done.
Qed.

(** A batch of the run that the encoder answers with one row per text
    contributes each of its texts, with the row at the same offset. *)
Lemma ingested_items_batch sentences batch_size q embeddings j text :
  0 < batch_size →
  let b := Z.to_nat batch_size in
  encode (take b (drop (q * b) sentences)) = Returned embeddings →
  length embeddings = length (take b (drop (q * b) sentences)) →
  take b (drop (q * b) sentences) !! j = Some text →
  ∃ v, embeddings !! j = Some v
     ∧ ((q * b + j)%nat, text, v) ∈ ingested_items sentences batch_size.
Proof.
  intros Hpos b Henc Hlen Hj. subst b.
  destruct (lookup_lt_is_Some_2 embeddings j) as [v Hv].
  { rewrite Hlen. by eapply lookup_lt_Some. }
  exists v. split; [done|].
  unfold ingested_items, range_step.
  rewrite decide_False by lia. rewrite decide_False by lia.
  apply list_elem_of_bind. exists (q * Z.to_nat batch_size)%nat. split.
  - unfold batch_items. rewrite Henc.
    apply elem_of_lookup_imap. exists j, (text, v). split; [done|].
    apply lookup_zip_with_Some. by exists text, v.
  - apply list_elem_of_fmap. exists q. split; [done|].
    apply elem_of_seq. split; [lia|]. simpl.
    apply lookup_take_Some in Hj as [Hj _]. rewrite lookup_drop in Hj.
    apply lookup_lt_Some in Hj.
    assert (q + 1 ≤ (length sentences + Z.to_nat batch_size - 1)
                      `div` Z.to_nat batch_size)%nat; [|lia].
    apply Nat.div_le_lower_bound; [lia|]. nia.
Qed.

(** A batch of the run on which the encoder raises contributes nothing. *)
Lemma ingested_items_failed_batch sentences batch_size q e x :
  let b := Z.to_nat batch_size in
  encode (take b (drop (q * b) sentences)) = Raised e →
  x ∈ ingested_items sentences batch_size →
  ¬ (q * b ≤ x.1.1 < q * b + b)%nat.
Proof.
  intros b Henc (Hpos & q' & Hx)%ingested_items_elem Hrange. subst b.
  apply batch_items_elem in Hx as (_ & Hx & embeddings & Henc').
  assert (q' = q) as -> by nia. congruence.
Qed.

(** ** The rows of the ingested items *)

Lemma item_rows_lookup document_id first_id items n r :
  item_rows document_id first_id items !! n = Some r ↔
  ∃ x, items !! n = Some x
     ∧ r = {| sent_id := first_id + Z.of_nat n; sent_document_id := document_id;
              sent_text := x.1.2; sent_index := Z.of_nat x.1.1;
              sent_embedding := Some (tobytes x.2) |}.
Proof.
  unfold item_rows. rewrite list_lookup_imap.
  destruct (items !! n) as [x|]; simpl; split.
  - intros [= <-]. by exists x.
  - by intros (? & [= <-] & ->).
  - done.
  - by intros (? & ? & _).
Qed.

Lemma item_rows_elem document_id first_id items r :
  r ∈ item_rows document_id first_id items ↔
  ∃ n x, items !! n = Some x
     ∧ r = {| sent_id := first_id + Z.of_nat n; sent_document_id := document_id;
              sent_text := x.1.2; sent_index := Z.of_nat x.1.1;
              sent_embedding := Some (tobytes x.2) |}.
Proof.
  rewrite list_elem_of_lookup. split.
  - intros (n & (x & ? & ?)%item_rows_lookup). by exists n, x.
  - intros (n & x & ? & ?). exists n. apply item_rows_lookup. by exists x.
Qed.

Lemma item_rows_texts document_id first_id items :
  sent_text <$> item_rows document_id first_id items = (λ x, x.1.2) <$> items.
Proof.
  revert first_id. induction items as [|x items IH]; intros first_id; [done|].
  rewrite item_rows_cons. csimpl. by rewrite IH.
Qed.

Lemma item_rows_indices document_id first_id items :
  sent_index <$> item_rows document_id first_id items
  = Z.of_nat <$> ((λ x, x.1.1) <$> items).
Proof.
  revert first_id. induction items as [|x items IH]; intros first_id; [done|].
  rewrite item_rows_cons. csimpl. by rewrite IH.
Qed.

Lemma item_rows_ids document_id first_id items :
  sent_id <$> item_rows document_id first_id items
  = (λ n, first_id + Z.of_nat n) <$> seq 0 (length items).
Proof.
  revert first_id. induction items as [|x items IH]; intros first_id; [done|].
  rewrite item_rows_cons. csimpl. rewrite IH. f_equal; [lia|].
  rewrite <- fmap_S_seq, <- list_fmap_compose. apply list_fmap_ext.
  intros _ n _. simpl. lia.
Qed.

Lemma sorted_of_nat (l : list nat) :
  StronglySorted lt l → StronglySorted Z.lt (Z.of_nat <$> l).
Proof.
  induction 1 as [|n l _ IH Hall]; csimpl; constructor; [done|].
  apply Forall_fmap. eapply Forall_impl; [exact Hall|]. simpl. lia.
Qed.

End ingested_facts.

(** * Properties of [process_file] *)

Section ingestion_properties.

Context `{Host}.

Lemma process_file_appends file_path batch_size st :
  batch_size ≠ 0 →
  let first := add_document (basename file_path) file_path st.1 in
  let items := ingested_items (extract_sentences_from_file file_path) batch_size in
  let out := process_file file_path batch_size st in
  ∃ doc, first.1 = Returned doc
       ∧ out.1 = Returned (length items)
       ∧ documents out.2.1 = documents first.2
       ∧ sentences out.2.1
         = sentences st.1 ++ item_rows doc (sentences_seq st.1 + 1) items.
Proof.
  intros Hstep first items out.
  destruct (process_file_run file_path batch_size st Hstep)
    as (doc & records & Hdoc & Hrun).
  exists doc. subst out. rewrite Hrun. simpl.
  destruct (add_document_seq (basename file_path) file_path st.1)
    as (Hseq & _ & Hsents).
  split_and!; [done..|]. by rewrite Hsents, Hseq.
Qed.

Lemma process_file_zero_step file_path st :
  extract_sentences_from_file file_path ≠ [] →
  ∃ records,
    process_file file_path 0 st
    = (Raised ValueError,
       ((add_document (basename file_path) file_path st.1).2, st.2 ++ records)).
Proof.
  intros Hsome. destruct st as [s lg].
  unfold process_file, on_store, processor_logging. py_unfold. cbn [fst snd].
  destruct (add_document (basename file_path) file_path s) as [r s1] eqn:Hadd.
  destruct (add_document_total (basename file_path) file_path s) as [doc Hdoc].
  rewrite Hadd in Hdoc. simpl in Hdoc. subst r. cbn [fst snd].
  destruct (extract_sentences_from_file file_path) as [|t sents]; [done|].
  eexists [_; _]. unfold range_step. simpl. by rewrite <- app_assoc.
Qed.

Lemma add_document_again filename1 filename2 file_path s s' doc :
  (add_document filename1 file_path s).1 = Returned doc →
  documents s' = documents (add_document filename1 file_path s).2 →
  add_document filename2 file_path s' = (Returned doc, s').
Proof.
  destruct (list_find (λ d, doc_file_path d = file_path) (documents s))
    as [[i d]|] eqn:Hfind.
  - rewrite (add_document_existing _ _ _ _ _ Hfind). simpl. intros [= <-] Hdocs.
    apply (add_document_existing _ _ _ i). by rewrite Hdocs.
  - rewrite (add_document_fresh _ _ _ Hfind). simpl. intros [= <-] Hdocs.
    set (new := {| doc_id := documents_seq s + 1; doc_filename := filename1;
                   doc_file_path := file_path |}) in *.
    apply (add_document_existing _ _ _ (length (documents s)) new).
    rewrite Hdocs. apply list_find_Some. split_and!.
    + by rewrite lookup_app_r, Nat.sub_diag by lia.
    + done.
    + intros j y Hy Hj. rewrite lookup_app_l in Hy by done.
      apply list_find_None in Hfind. rewrite Forall_forall in Hfind.
      apply Hfind. by eapply list_elem_of_lookup_2.
Qed.

Lemma filter_all_of {A} (P : A → Prop) `{∀ x, Decision (P x)} (l : list A) :
  Forall P l → filter P l = l.
Proof.
  induction 1 as [|x l Hx _ IH]; [done|]. by rewrite filter_cons_True, IH.
Qed.

Lemma strictly_sorted_key_inj {A} (key : A → Z) (l : list A) x y :
  StronglySorted Z.lt (key <$> l) → x ∈ l → y ∈ l → key x = key y → x = y.
Proof.
  induction l as [|a l IH]; intros Hsorted Hx Hy Heq; [by apply elem_of_nil in Hx|].
  csimpl in Hsorted. apply StronglySorted_inv in Hsorted as [Hsorted Hall].
  rewrite Forall_fmap, Forall_forall in Hall.
  apply elem_of_cons in Hx as [->|Hx]; apply elem_of_cons in Hy as [->|Hy].
  - done.
  - specialize (Hall y Hy). simpl in Hall. lia.
  - specialize (Hall x Hx). simpl in Hall. lia.
  - by apply IH.
Qed.

Lemma strictly_sorted_by_sentence_index (l : list SentenceRow) :
  StronglySorted Z.lt (sent_index <$> l) → StronglySorted by_sentence_index l.
Proof.
  induction l as [|a l IH]; intros Hsorted; [constructor|].
  csimpl in Hsorted. apply StronglySorted_inv in Hsorted as [Hsorted Hall].
  constructor; [by apply IH|].
  rewrite Forall_fmap in Hall. eapply Forall_impl; [exact Hall|].
  intros r Hr. unfold by_sentence_index. simpl in Hr. lia.
Qed.

(** Rows whose positions increase strictly are already in the order of
    [ORDER BY sentence_index]. *)
Lemma merge_sort_strictly_sorted (l : list SentenceRow) :
  StronglySorted Z.lt (sent_index <$> l) → merge_sort by_sentence_index l = l.
Proof.
  intros Hsorted.
  apply (StronglySorted_unique_strong by_sentence_index).
  - intros x1 x2 Hx1 Hx2 H12 H21. rewrite merge_sort_Permutation in Hx1.
    apply (strictly_sorted_key_inj sent_index l); [done..|].
    unfold by_sentence_index in H12, H21. lia.
  - apply (StronglySorted_merge_sort by_sentence_index).
  - by apply strictly_sorted_by_sentence_index.
  - apply merge_sort_Permutation.
Qed.

(** X17: whatever the encoder does, with a batch size other than 0
    [process_file] returns the number of sentence rows it appended, which
    is at most the number of extracted sentences. The new rows take
    consecutive ids after the last one assigned, all belong to the
    document [add_document] returned for the path, all hold an embedding,
    and each holds the text that stands at its [sentence_index] in the
    extracted list; their positions increase strictly, so no sentence is
    stored twice by one run. *)
Theorem process_file_rows_match_positions (file_path : string) (batch_size : Z)
    (st : Ingest) :
  batch_size ≠ 0 →
  let sents := extract_sentences_from_file file_path in
  let out := process_file file_path batch_size st in
  ∃ doc new,
    (add_document (basename file_path) file_path st.1).1 = Returned doc
    ∧ out.1 = Returned (length new)
    ∧ sentences out.2.1 = sentences st.1 ++ new
    ∧ (length new ≤ length sents)%nat
    ∧ sent_id <$> new
      = (λ n, sentences_seq st.1 + 1 + Z.of_nat n) <$> seq 0 (length new)
    ∧ StronglySorted Z.lt (sent_index <$> new)
    ∧ Forall (λ r, sent_document_id r = doc ∧ has_embedding r
                   ∧ 0 ≤ sent_index r
                   ∧ sents !! Z.to_nat (sent_index r) = Some (sent_text r)) new.
Proof.
  intros Hstep sents out.
  destruct (process_file_appends file_path batch_size st Hstep)
    as (doc & Hdoc & Hret & _ & Hrows).
  destruct (ingested_items_positions sents batch_size) as [Hat Hsorted].
  exists doc, (item_rows doc (sentences_seq st.1 + 1) (ingested_items sents batch_size)).
  rewrite item_rows_length. split_and!; [done..| | | |].
  - apply ingested_items_length.
  - apply item_rows_ids.
  - rewrite item_rows_indices. by apply sorted_of_nat.
  - apply Forall_forall. intros r (n & x & Hx & ->)%item_rows_elem. simpl.
    apply list_elem_of_lookup_2 in Hx. rewrite Forall_forall in Hat.
    split_and!; [done|by eexists|lia|].
    rewrite Nat2Z.id. by apply Hat.
Qed.

(** X18: with a positive batch size and an encoder that returns one row
    for each text of every batch, [process_file] returns the number of
    extracted sentences and appends exactly one row per sentence, in the
    order of extraction, with the positions 0, 1, 2, ... whatever the batch
    size is. *)
Theorem process_file_complete (file_path : string) (batch_size : Z) (st : Ingest) :
  0 < batch_size →
  encodes_all (extract_sentences_from_file file_path) batch_size →
  let sents := extract_sentences_from_file file_path in
  let out := process_file file_path batch_size st in
  ∃ new,
    out.1 = Returned (length sents)
    ∧ sentences out.2.1 = sentences st.1 ++ new
    ∧ sent_text <$> new = sents
    ∧ sent_index <$> new = Z.of_nat <$> seq 0 (length sents).
Proof.
  intros Hpos Hall sents out.
  destruct (process_file_appends file_path batch_size st) as (doc & _ & Hret & _ & Hrows);
    [lia|].
  destruct (ingested_items_complete sents batch_size Hpos Hall) as [Htexts Hpositions].
  exists (item_rows doc (sentences_seq st.1 + 1) (ingested_items sents batch_size)).
  split_and!.
  - subst out. rewrite Hret. f_equal.
    rewrite <- (length_fmap (λ x : nat * string * vector, x.1.2)). fold sents.
    by rewrite Htexts.
  - done.
  - by rewrite item_rows_texts.
  - by rewrite item_rows_indices, Hpositions.
Qed.

(** X19: write and read back. After such a complete run on a document
    that had no sentence rows before, [get_document_sentences] for the
    returned document id yields the extracted sentences in their order,
    with the positions 0, 1, 2, ... *)
Theorem processed_file_reads_back (file_path : string) (batch_size : Z) (st : Ingest)
    (doc : Z) :
  0 < batch_size →
  encodes_all (extract_sentences_from_file file_path) batch_size →
  (add_document (basename file_path) file_path st.1).1 = Returned doc →
  Forall (λ r, sent_document_id r ≠ doc) (sentences st.1) →
  let sents := extract_sentences_from_file file_path in
  let out := process_file file_path batch_size st in
  ds_text <$> get_document_sentences doc out.2.1 = sents
  ∧ ds_index <$> get_document_sentences doc out.2.1
    = Z.of_nat <$> seq 0 (length sents).
Proof.
  intros Hpos Hall Hdoc Hfresh sents out.
  destruct (process_file_appends file_path batch_size st) as (doc' & Hdoc' & _ & _ & Hrows);
    [lia|].
  assert (doc' = doc) as -> by congruence.
  destruct (ingested_items_complete sents batch_size Hpos Hall) as [Htexts Hpositions].
  fold sents out in Hrows.
  set (new := item_rows doc (sentences_seq st.1 + 1) (ingested_items sents batch_size))
    in *.
  assert (filter (λ r, sent_document_id r = doc) (sentences out.2.1) = new) as Hfilter.
  { rewrite Hrows, filter_app, (filter_none_of _ _ Hfresh). simpl.
    apply filter_all_of, Forall_forall.
    by intros r (n & x & _ & ->)%item_rows_elem. }
  assert (sent_index <$> new = Z.of_nat <$> seq 0 (length sents)) as Hindices.
  { unfold new. by rewrite item_rows_indices, Hpositions. }
  unfold get_document_sentences. rewrite Hfilter, merge_sort_strictly_sorted.
  - rewrite <- !list_fmap_compose. split; [|exact Hindices].
    transitivity (sent_text <$> new); [done|].
    unfold new. by rewrite item_rows_texts.
  - rewrite Hindices. apply sorted_of_nat, seq_sorted.
Qed.

(** X20: batches are independent. With a positive batch size, look at
    the batch that starts at [q * batch_size]. When the encoder raises on
    it, the run still returns normally and no appended row has a position
    inside that batch. When the encoder returns one row for each of its
    texts, every text of the batch is appended under its position in the
    document with the embedding at the same offset, whatever happened to
    the other batches. *)
Theorem process_file_batches_independent (file_path : string) (batch_size : Z)
    (st : Ingest) (q : nat) :
  0 < batch_size →
  let sents := extract_sentences_from_file file_path in
  let b := Z.to_nat batch_size in
  let batch := take b (drop (q * b) sents) in
  let out := process_file file_path batch_size st in
  ∃ new,
    out.1 = Returned (length new)
    ∧ sentences out.2.1 = sentences st.1 ++ new
    ∧ (∀ e, encode batch = Raised e →
         Forall (λ r, ¬ (Z.of_nat (q * b) ≤ sent_index r < Z.of_nat (q * b + b))) new)
    ∧ (∀ embeddings, encode batch = Returned embeddings →
         length embeddings = length batch →
         ∀ j text, batch !! j = Some text →
           ∃ r v, r ∈ new ∧ embeddings !! j = Some v
                ∧ sent_index r = Z.of_nat (q * b + j)
                ∧ sent_text r = text
                ∧ sent_embedding r = Some (tobytes v)).
Proof.
  intros Hpos sents b batch out.
  destruct (process_file_appends file_path batch_size st) as (doc & _ & Hret & _ & Hrows);
    [lia|].
  exists (item_rows doc (sentences_seq st.1 + 1) (ingested_items sents batch_size)).
  rewrite item_rows_length. split_and!; [done..| |].
  - intros e Henc. apply Forall_forall.
    intros r (n & x & Hx & ->)%item_rows_elem. simpl.
    apply list_elem_of_lookup_2 in Hx.
    pose proof (ingested_items_failed_batch sents batch_size q e x Henc Hx) as Hout.
    fold b in Hout. lia.
  - intros embeddings Henc Hlen j text Hj.
    destruct (ingested_items_batch sents batch_size q embeddings j text Hpos Henc Hlen Hj)
      as (v & Hv & Hin).
    apply list_elem_of_lookup_1 in Hin as [n Hn].
    eexists _, v. split_and!; [|done|..].
    + apply item_rows_elem. by exists n, (q * b + j, text, v)%nat.
    + done.
    + done.
    + done.
Qed.

(** X21: the runs that store no sentence. The document row is written
    before anything else, so it is there afterwards in each of these
    cases: when no sentence is extracted the call returns 0; with
    [batch_size = 0] and at least one sentence the call raises the
    ValueError of [range]; with a negative batch size it returns 0
    although sentences were extracted. In all three the sentence rows are
    untouched. *)
Theorem process_file_degenerate_runs (file_path : string) (batch_size : Z)
    (st : Ingest) :
  let sents := extract_sentences_from_file file_path in
  let first := add_document (basename file_path) file_path st.1 in
  let out := process_file file_path batch_size st in
  (sents = [] → out.1 = Returned 0%nat ∧ out.2.1 = first.2)
  ∧ (sents ≠ [] → batch_size = 0 → out.1 = Raised ValueError ∧ out.2.1 = first.2)
  ∧ (batch_size < 0 → out.1 = Returned 0%nat ∧ out.2.1 = first.2)
  ∧ sentences first.2 = sentences st.1
  ∧ ∃ d, d ∈ documents first.2 ∧ doc_file_path d = file_path.
Proof.
  intros sents first out. split_and!.
  - intros Hnone. subst out first. destruct st as [s lg].
    unfold process_file, on_store, processor_logging. py_unfold. cbn [fst snd].
    destruct (add_document (basename file_path) file_path s) as [r s1] eqn:Hadd.
    destruct (add_document_total (basename file_path) file_path s) as [doc Hdoc].
    rewrite Hadd in Hdoc. simpl in Hdoc. subst r. cbn [fst snd].
    fold sents. by rewrite Hnone.
  - intros Hsome ->. subst out.
    destruct (process_file_zero_step file_path st Hsome) as [records ->]. done.
  - intros Hneg. subst out.
    destruct (process_file_run file_path batch_size st) as (doc & records & _ & ->);
      [lia|].
    unfold ingested_items, range_step.
    rewrite decide_False by lia. rewrite decide_True by done.
    simpl. by rewrite append_items_nil.
  - apply add_document_seq.
  - subst first. unfold add_document.
    destruct (list_find _ _) as [[i d]|] eqn:Hfind; simpl.
    + apply list_find_Some in Hfind as (Hlook & Hpath & _).
      exists d. split; [by eapply list_elem_of_lookup_2|done].
    + eexists. split; [apply elem_of_app; right; left|done].
Qed.

(** X22: [process_file] is not idempotent. With a positive batch size and
    an encoder that returns one row for each text, a second run on the
    same file returns the same count, finds the same document and adds no
    document row, and appends every sentence a second time under the same
    document id and the same positions. *)
Theorem process_file_twice_duplicates (file_path : string) (batch_size : Z)
    (st : Ingest) :
  0 < batch_size →
  encodes_all (extract_sentences_from_file file_path) batch_size →
  let sents := extract_sentences_from_file file_path in
  let out1 := process_file file_path batch_size st in
  let out2 := process_file file_path batch_size out1.2 in
  out1.1 = Returned (length sents)
  ∧ out2.1 = Returned (length sents)
  ∧ documents out2.2.1 = documents out1.2.1
  ∧ ∃ doc new1 new2,
      sentences out2.2.1 = sentences st.1 ++ new1 ++ new2
      ∧ sent_text <$> new1 = sents ∧ sent_text <$> new2 = sents
      ∧ sent_index <$> new1 = sent_index <$> new2
      ∧ Forall (λ r, sent_document_id r = doc) (new1 ++ new2).
Proof.
  intros Hpos Hall sents out1 out2.
  destruct (process_file_appends file_path batch_size st)
    as (doc & Hdoc & Hret1 & Hdocs1 & Hrows1); [lia|].
  destruct (process_file_appends file_path batch_size out1.2)
    as (doc2 & Hdoc2 & Hret2 & Hdocs2 & Hrows2); [lia|].
  fold out1 in Hret1, Hdocs1, Hrows1. fold out2 in Hret2, Hdocs2, Hrows2.
  pose proof (add_document_again (basename file_path) (basename file_path)
                file_path st.1 out1.2.1 doc Hdoc Hdocs1) as Hagain.
  rewrite Hagain in Hdoc2, Hdocs2. simpl in Hdoc2, Hdocs2.
  assert (doc2 = doc) as -> by congruence.
  destruct (ingested_items_complete sents batch_size Hpos Hall) as [Htexts Hpositions].
  fold sents in Hret1, Hret2, Hrows1, Hrows2.
  assert (length (ingested_items sents batch_size) = length sents) as Hlen.
  { rewrite <- (length_fmap (λ x : nat * string * vector, x.1.2)). by rewrite Htexts. }
  rewrite Hlen in Hret1, Hret2.
  split_and!; [done..|].
  eexists doc, _, _. split_and!.
  - rewrite Hrows2, Hrows1, <- app_assoc. done.
  - by rewrite item_rows_texts.
  - by rewrite item_rows_texts.
  - by rewrite !item_rows_indices.
  - apply Forall_app. split; apply Forall_forall;
      by intros r (n & x & _ & ->)%item_rows_elem.
Qed.

End ingestion_properties.

(** * Properties of [process_directory] *)

Section directory_run.

Context `{Host} `{FileSystem}.

Lemma add_document_records filename file_path s :
  (∀ d, d ∈ documents s → d ∈ documents (add_document filename file_path s).2)
  ∧ ∃ d, d ∈ documents (add_document filename file_path s).2
       ∧ doc_file_path d = file_path.
Proof.
  unfold add_document.
  destruct (list_find _ _) as [[i d]|] eqn:Hfind; simpl.
  - split; [done|].
    apply list_find_Some in Hfind as (Hlook & Hpath & _).
    exists d. split; [by eapply list_elem_of_lookup_2|done].
  - split.
    + intros d Hd. apply elem_of_app. by left.
    + eexists. split; [apply elem_of_app; right; left|done].
Qed.

Lemma process_file_empty file_path batch_size st :
  extract_sentences_from_file file_path = [] →
  ∃ records,
    process_file file_path batch_size st
    = (Returned 0%nat,
       ((add_document (basename file_path) file_path st.1).2, st.2 ++ records)).
Proof.
  intros Hnone. destruct st as [s lg].
  unfold process_file, on_store, processor_logging. py_unfold. cbn [fst snd].
  destruct (add_document (basename file_path) file_path s) as [r s1] eqn:Hadd.
  destruct (add_document_total (basename file_path) file_path s) as [doc Hdoc].
  rewrite Hadd in Hdoc. simpl in Hdoc. subst r. cbn [fst snd].
  rewrite Hnone. cbn [fst snd]. eexists [_; _]. by rewrite <- app_assoc.
Qed.

(** What one call of [process_file] does to the store, whatever the batch
    size: it returns [n] after appending [n] sentence rows, or raises
    ValueError after appending none; no document row is lost and one with
    the path is there afterwards. *)
Lemma process_file_outcome file_path batch_size st :
  ∃ r n records s',
    process_file file_path batch_size st = (r, (s', st.2 ++ records))
    ∧ (r = Returned n ∨ (∃ e, r = Raised e) ∧ n = 0%nat)
    ∧ length (sentences s') = (length (sentences st.1) + n)%nat
    ∧ (∀ d, d ∈ documents st.1 → d ∈ documents s')
    ∧ ∃ d, d ∈ documents s' ∧ doc_file_path d = file_path.
Proof.
  destruct (add_document_records (basename file_path) file_path st.1) as [Hkeep Hnew].
  destruct (add_document_seq (basename file_path) file_path st.1) as (_ & _ & Hsents).
  destruct (decide (batch_size = 0)) as [->|Hstep].
  - destruct (extract_sentences_from_file file_path) as [|t sents] eqn:Hextract.
    + destruct (process_file_empty file_path 0 st Hextract) as [records ->].
      eexists _, 0%nat, records, _. split; [done|].
      split_and!; [by left|rewrite Hsents; lia|done..].
    + destruct (process_file_zero_step file_path st) as [records ->]; [by rewrite Hextract|].
      eexists _, 0%nat, records, _. split; [done|].
      split_and!; [right; by eauto|rewrite Hsents; lia|done..].
  - destruct (process_file_run file_path batch_size st Hstep)
      as (doc & records & _ & ->).
    eexists _, _, records, _. split; [done|].
    split_and!; [by left| |done..].
    simpl. by rewrite length_app, item_rows_length, Hsents.
Qed.

Lemma process_entry_outcome batch_size file_path acc st :
  ∃ n records s',
    process_entry batch_size file_path acc st
    = (Returned (<[file_path := n]> acc.1, (acc.2 + n)%nat), (s', st.2 ++ records))
    ∧ length (sentences s') = (length (sentences st.1) + n)%nat
    ∧ (∀ d, d ∈ documents st.1 → d ∈ documents s')
    ∧ ∃ d, d ∈ documents s' ∧ doc_file_path d = file_path.
Proof.
  destruct (process_file_outcome file_path batch_size st)
    as (r & n & records & s' & Hrun & Hr & Hlen & Hkeep & Hnew).
  unfold process_entry, processor_logging. py_unfold. rewrite Hrun.
  destruct Hr as [->|[[e ->] ->]].
  - by exists n, records, s'.
  - exists 0%nat, (records ++ [error_file_failed file_path e]), s'.
    cbn [fst snd]. rewrite Nat.add_0_r, <- app_assoc. done.
Qed.

Lemma dict_sum_insert_fresh (results : gmap string nat) file_path n :
  results !! file_path = None →
  dict_sum (<[file_path := n]> results) = (n + dict_sum results)%nat.
Proof.
  intros Hfresh. unfold dict_sum.
  by rewrite (map_to_list_insert results file_path n Hfresh).
Qed.

Lemma dict_sum_insert_le (results : gmap string nat) file_path n :
  (dict_sum (<[file_path := n]> results) ≤ n + dict_sum results)%nat.
Proof.
  destruct (results !! file_path) as [m|] eqn:Hlook.
  - replace (<[file_path := n]> results)
      with (<[file_path := n]> (delete file_path results)).
    + rewrite dict_sum_insert_fresh by apply lookup_delete_eq.
      unfold dict_sum at 2. rewrite <- (map_to_list_delete results file_path m Hlook).
      csimpl. unfold dict_sum. lia.
    + rewrite insert_delete. by rewrite decide_True.
  - by rewrite dict_sum_insert_fresh.
Qed.

(** The loop over [files] from any value of the two local variables. *)
Lemma for_each_entries batch_size files acc st :
  ∃ acc' records s',
    for_each files (process_entry batch_size) acc st
    = (Returned acc', (s', st.2 ++ records))
    ∧ (∀ f, is_Some (acc'.1 !! f) ↔ is_Some (acc.1 !! f) ∨ f ∈ files)
    ∧ (length (sentences s') + acc.2 = length (sentences st.1) + acc'.2)%nat
    ∧ (dict_sum acc'.1 + acc.2 ≤ dict_sum acc.1 + acc'.2)%nat
    ∧ (NoDup files → (∀ f, f ∈ files → acc.1 !! f = None) →
       (dict_sum acc'.1 + acc.2 = dict_sum acc.1 + acc'.2)%nat)
    ∧ (∀ d, d ∈ documents st.1 → d ∈ documents s')
    ∧ (∀ f, f ∈ files → ∃ d, d ∈ documents s' ∧ doc_file_path d = f).
Proof.
  revert acc st. induction files as [|file_path files IH]; intros acc st.
  - exists acc, [], st.1. destruct st as [s lg]. simpl. rewrite app_nil_r.
    split; [done|]. split_and!; try done.
    + intros f. split; [by left|]. intros [?|Hf]; [done|by apply elem_of_nil in Hf].
    + intros f Hf. by apply elem_of_nil in Hf.
  - destruct (process_entry_outcome batch_size file_path acc st)
      as (n & records1 & s1 & Hentry & Hlen1 & Hkeep1 & Hnew1).
    destruct (IH (<[file_path := n]> acc.1, (acc.2 + n)%nat) (s1, st.2 ++ records1))
      as (acc' & records2 & s' & Hrest & Hkeys & Hlen2 & Hle & Heq & Hkeep2 & Hnew2).
    cbn [fst snd] in Hkeys, Hlen2, Hle, Heq, Hkeep2, Hnew2.
    exists acc', (records1 ++ records2), s'.
    split.
    { cbn [for_each]. unfold mbind at 1, M_bind, bind. rewrite Hentry, Hrest.
      cbn [fst snd]. by rewrite <- app_assoc. }
    pose proof (dict_sum_insert_le acc.1 file_path n) as Hins.
    split_and!.
    + intros f. rewrite Hkeys, lookup_insert_is_Some', elem_of_cons.
      split; [intros [[->|?]|?]|intros [?|[->|?]]]; auto.
    + lia.
    + lia.
    + intros [Hnotin Hnodup]%NoDup_cons Hfresh.
      rewrite dict_sum_insert_fresh in Heq by (apply Hfresh; left).
      assert (dict_sum acc'.1 + (acc.2 + n) = n + dict_sum acc.1 + acc'.2)%nat; [|lia].
      apply Heq; [done|]. intros f Hf.
      rewrite lookup_insert_ne; [apply Hfresh; by right|].
      intros ->. done.
    + intros d Hd. by apply Hkeep2, Hkeep1.
    + intros f [->|Hf]%elem_of_cons; [|by apply Hnew2].
      destruct Hnew1 as (d & Hd & Hpath). exists d. split; [by apply Hkeep2|done].
Qed.

(** A run of [process_directory] in closed form. *)
Lemma process_directory_run directory_path file_patterns batch_size st :
  let files := matched_files directory_path file_patterns in
  ∃ results total records s',
    process_directory directory_path file_patterns batch_size st
    = (Returned results, (s', st.2 ++ records))
    ∧ (files = [] → results = ∅ ∧ s' = st.1)
    ∧ (files ≠ [] → last records = Some (info_directory_processed total))
    ∧ (∀ f, is_Some (results !! f) ↔ f ∈ files)
    ∧ length (sentences s') = (length (sentences st.1) + total)%nat
    ∧ (dict_sum results ≤ total)%nat
    ∧ (NoDup files → dict_sum results = total)
    ∧ (∀ d, d ∈ documents st.1 → d ∈ documents s')
    ∧ (∀ f, f ∈ files → ∃ d, d ∈ documents s' ∧ doc_file_path d = f).
Proof.
  intros files. unfold process_directory. fold files.
  assert (dict_sum ∅ = 0%nat) as Hempty.
  { unfold dict_sum. by rewrite map_to_list_empty. }
  destruct files as [|file_path files'] eqn:Hfiles.
  - exists ∅, 0%nat, [warning_no_files directory_path], st.1.
    destruct st as [s lg]. split; [done|].
    split_and!.
    + done.
    + done.
    + intros f. rewrite lookup_empty. split; [by intros [??]|].
      by intros ?%elem_of_nil.
    + simpl. lia.
    + by rewrite Hempty.
    + done.
    + done.
    + intros f Hf. by apply elem_of_nil in Hf.
  - rewrite <- Hfiles.
    destruct (for_each_entries batch_size files (∅, 0%nat)
                (st.1, st.2 ++ [info_files_found (length files)]))
      as (acc' & records & s' & Hloop & Hkeys & Hlen & Hle & Heq & Hkeep & Hnew).
    cbn [fst snd] in Hloop, Hkeys, Hlen, Hle, Heq, Hkeep, Hnew.
    exists acc'.1, acc'.2,
      ([info_files_found (length files)] ++ records
       ++ [info_directory_processed acc'.2]), s'.
    split.
    { destruct st as [s lg]. unfold processor_logging. py_unfold. cbn [fst snd] in *.
      rewrite Hloop. cbn [fst snd]. by rewrite <- !app_assoc. }
    split_and!.
    + by rewrite Hfiles.
    + intros _. by rewrite app_assoc, last_snoc.
    + intros f. rewrite Hkeys, lookup_empty. split; [|by right].
      intros [[? [=]]|?]; done.
    + lia.
    + lia.
    + intros Hnodup. rewrite Hempty in Heq.
      pose proof (Heq Hnodup (λ f _, lookup_empty f)). lia.
    + done.
    + done.
Qed.

(** X23: [process_directory] never raises, whatever [process_file] does.
    It returns a dict whose keys are exactly the matched paths; every
    matched path has a document row afterwards and no document row is
    lost. The total it logs is the number of sentence rows the call
    appended, and the counts in the dict add up to at most that number.
    Without a match it returns the empty dict and leaves the store as it
    was. *)
Theorem process_directory_accounts (directory_path : string)
    (file_patterns : option (list string)) (batch_size : Z) (st : Ingest) :
  let files := matched_files directory_path file_patterns in
  let out := process_directory directory_path file_patterns batch_size st in
  let appended := (length (sentences out.2.1) - length (sentences st.1))%nat in
  ∃ results,
    out.1 = Returned results
    ∧ (∀ f, is_Some (results !! f) ↔ f ∈ files)
    ∧ (∀ f, f ∈ files → ∃ d, d ∈ documents out.2.1 ∧ doc_file_path d = f)
    ∧ (∀ d, d ∈ documents st.1 → d ∈ documents out.2.1)
    ∧ (length (sentences st.1) ≤ length (sentences out.2.1))%nat
    ∧ (dict_sum results ≤ appended)%nat
    ∧ (files ≠ [] → last out.2.2 = Some (info_directory_processed appended))
    ∧ (files = [] → results = ∅ ∧ out.2.1 = st.1).
Proof.
  intros files out appended. subst appended out.
  destruct (process_directory_run directory_path file_patterns batch_size st)
    as (results & total & records & s' & -> & Hnone & Hlast & Hkeys & Hlen & Hle
        & _ & Hkeep & Hnew).
  exists results. cbn [fst snd]. rewrite Hlen.
  replace (length (sentences st.1) + total - length (sentences st.1))%nat
    with total by lia.
  split_and!; [done..|lia|done| |done].
  intros Hsome. specialize (Hlast Hsome).
  destruct records as [|record records] using rev_ind; [done|].
  rewrite last_snoc in Hlast. by rewrite app_assoc, last_snoc.
Qed.

(** X24: when no path is matched twice, the counts [process_directory]
    returns add up to exactly the number of sentence rows it appended:
    a file whose processing raised counts 0 and has stored nothing. *)
Theorem process_directory_counts_add_up (directory_path : string)
    (file_patterns : option (list string)) (batch_size : Z) (st : Ingest) :
  NoDup (matched_files directory_path file_patterns) →
  let out := process_directory directory_path file_patterns batch_size st in
  ∃ results,
    out.1 = Returned results
    ∧ length (sentences out.2.1)
      = (length (sentences st.1) + dict_sum results)%nat.
Proof.
  intros Hnodup out. subst out.
  destruct (process_directory_run directory_path file_patterns batch_size st)
    as (results & total & records & s' & -> & _ & _ & _ & Hlen & _ & Heq & _).
  exists results. cbn [fst snd]. split; [done|]. rewrite Hlen, Heq; done.
Qed.

End directory_run.

(** * The properties above at concrete engines and files *)

Section worked_examples.



Lemma search_threshold_monotone_witness :
  @search_results exact_faiss query10 3 1%Q world3
    `sublist_of` @search_results exact_faiss query10 3 0%Q world3.
Proof.
  apply (@search_threshold_monotone exact_faiss world3 query10 3 0%Q 1%Q).
  unfold Qle. simpl. lia.
Defined.

Lemma fresh_build_has_no_drift_witness :
  let w' := (@build_index exact_faiss "flat" (new_engine store3 absent absent)).2 in
  let ids := (embeddings_of store3).*1 in
  (∀ i sentence_id, ids !! i = Some sentence_id →
     id_mapping w' !! Z.of_nat i = Some sentence_id
     ∧ ∃ info, get_sentence_by_id sentence_id (db w') = Some info
             ∧ info_id info = sentence_id)
  ∧ (∀ x k threshold j score idx,
       @raw_hits exact_faiss x k w' !! j = Some (score, idx) →
       0 ≤ idx < Z.of_nat (stat_embeddings (get_stats store3)) →
       (threshold <= score)%Q →
       ∃ r, r ∈ @search_results exact_faiss x k threshold w'
          ∧ rank r = Z.of_nat j + 1 ∧ similarity_score r = score
          ∧ ids !! Z.to_nat idx = Some (info_id (res_info r))).
Proof.
  exact (@fresh_build_has_no_drift exact_faiss (new_engine store3 absent absent)
           "flat" 2 store3_wf store3_references store3_dimension
           (or_introl eq_refl)).
Defined.



Lemma sample_encodes_all :
  @encodes_all sample_host (@extract_sentences_from_file sample_host "/docs/a.md") 2.
Proof.
  intros i. destruct i as [|[|[|[|i]]]]; (eexists; split; reflexivity).
Qed.

Lemma process_file_rows_match_positions_witness :
  let sents := @extract_sentences_from_file sample_host "/docs/b.md" in
  let out := @process_file sample_host "/docs/b.md" 2 ingest0 in
  ∃ doc new,
    (add_document (@basename sample_host "/docs/b.md") "/docs/b.md" ingest0.1).1
    = Returned doc
    ∧ out.1 = Returned (length new)
    ∧ sentences out.2.1 = sentences ingest0.1 ++ new
    ∧ (length new ≤ length sents)%nat
    ∧ sent_id <$> new
      = (λ n, sentences_seq ingest0.1 + 1 + Z.of_nat n) <$> seq 0 (length new)
    ∧ StronglySorted Z.lt (sent_index <$> new)
    ∧ Forall (λ r, sent_document_id r = doc ∧ has_embedding r
                   ∧ 0 ≤ sent_index r
                   ∧ sents !! Z.to_nat (sent_index r) = Some (sent_text r)) new.
Proof.
  apply (@process_file_rows_match_positions sample_host "/docs/b.md" 2 ingest0).
  lia.
Defined.

Lemma process_file_complete_witness :
  let sents := @extract_sentences_from_file sample_host "/docs/a.md" in
  let out := @process_file sample_host "/docs/a.md" 2 ingest0 in
  ∃ new,
    out.1 = Returned 3%nat
    ∧ sentences out.2.1 = sentences ingest0.1 ++ new
    ∧ sent_text <$> new = sents
    ∧ sent_index <$> new = Z.of_nat <$> seq 0 3.
Proof.
  apply (@process_file_complete sample_host "/docs/a.md" 2 ingest0);
    [lia|exact sample_encodes_all].
Defined.

Lemma processed_file_reads_back_witness :
  let out := @process_file sample_host "/docs/a.md" 2 ingest0 in
  ds_text <$> get_document_sentences 1 out.2.1
  = ["alpha one"; "beta two"; "gamma three"]
  ∧ ds_index <$> get_document_sentences 1 out.2.1 = [0; 1; 2].
Proof.
  apply (@processed_file_reads_back sample_host "/docs/a.md" 2 ingest0 1);
    [lia|exact sample_encodes_all|reflexivity|constructor].
Defined.

Lemma process_file_batches_independent_witness :
  let sents := @extract_sentences_from_file sample_host "/docs/b.md" in
  let batch := take 2 (drop 2 sents) in
  let out := @process_file sample_host "/docs/b.md" 2 ingest0 in
  ∃ new,
    out.1 = Returned (length new)
    ∧ sentences out.2.1 = sentences ingest0.1 ++ new
    ∧ (∀ e, @encode sample_host batch = Raised e →
         Forall (λ r, ¬ (2 ≤ sent_index r < 4)) new)
    ∧ (∀ embeddings, @encode sample_host batch = Returned embeddings →
         length embeddings = length batch →
         ∀ j text, batch !! j = Some text →
           ∃ r v, r ∈ new ∧ embeddings !! j = Some v
                ∧ sent_index r = Z.of_nat (2 + j)
                ∧ sent_text r = text
                ∧ sent_embedding r = Some (tobytes v)).
Proof.
  apply (@process_file_batches_independent sample_host "/docs/b.md" 2 ingest0 1).
  lia.
Defined.

Lemma process_file_twice_duplicates_witness :
  let sents := @extract_sentences_from_file sample_host "/docs/a.md" in
  let out1 := @process_file sample_host "/docs/a.md" 2 ingest0 in
  let out2 := @process_file sample_host "/docs/a.md" 2 out1.2 in
  out1.1 = Returned 3%nat
  ∧ out2.1 = Returned 3%nat
  ∧ documents out2.2.1 = documents out1.2.1
  ∧ ∃ doc new1 new2,
      sentences out2.2.1 = sentences ingest0.1 ++ new1 ++ new2
      ∧ sent_text <$> new1 = sents ∧ sent_text <$> new2 = sents
      ∧ sent_index <$> new1 = sent_index <$> new2
      ∧ Forall (λ r, sent_document_id r = doc) (new1 ++ new2).
Proof.
  apply (@process_file_twice_duplicates sample_host "/docs/a.md" 2 ingest0);
    [lia|exact sample_encodes_all].
Defined.

(** One run under [sample_host]: of the five sentences of ["/docs/b.md"],
    in batches of two, the batch that holds ["bad"] is skipped as a whole
    and its neighbour ["fourth"] with it; the other three are stored under
    their positions in the file. *)
Lemma process_file_skips_whole_batch :
  let out := @process_file sample_host "/docs/b.md" 2 ingest0 in
  out.1 = Returned 3%nat
  ∧ sent_text <$> sentences out.2.1 = ["first"; "second"; "fifth"]
  ∧ sent_index <$> sentences out.2.1 = [0; 1; 4]
  ∧ doc_filename <$> documents out.2.1 = ["b.md"].
Proof. split_and!; by vm_compute. Qed.

Lemma process_directory_counts_add_up_witness :
  let out := @process_directory sample_host sample_fs "/docs" None 2 ingest0 in
  ∃ results,
    out.1 = Returned results
    ∧ length (sentences out.2.1)
      = (length (sentences ingest0.1) + dict_sum results)%nat.
Proof.
  apply (@process_directory_counts_add_up sample_host sample_fs "/docs" None 2 ingest0).
  apply (bool_decide_unpack _). by vm_compute.
Defined.

(** One run over the sample directory with the default patterns: both
    files are processed, three sentences of each are stored. *)
Lemma process_directory_sample_run :
  let out := @process_directory sample_host sample_fs "/docs" None 2 ingest0 in
  @matched_files sample_fs "/docs" None = ["/docs/a.md"; "/docs/b.md"]
  ∧ ∃ results,
      out.1 = Returned results
      ∧ results !! "/docs/a.md" = Some 3%nat
      ∧ results !! "/docs/b.md" = Some 3%nat
      ∧ dict_sum results = 6%nat
      ∧ length (sentences out.2.1) = 6%nat
      ∧ doc_file_path <$> documents out.2.1 = ["/docs/a.md"; "/docs/b.md"].
Proof.
  split; [by vm_compute|]. eexists. split; [by vm_compute|].
  split_and!; by vm_compute.
Qed.

End worked_examples.
